(** * InfiniteCanvasBackend: the two whiteboard servers, embedded and verified

    The repository holds two independent Socket.IO servers.

    - [src/whiteboard/whiteboard.gateway.ts] (NestJS): one global canvas, kept
      as a plain object [objects : Record<string, WhiteboardObject>] that is
      mutated by [object:added], [object:modified], [object:removed] and
      [canvas:clear].  Embedded in [Module Gateway].
    - [index.ts] (Express): rooms of at most ten users, each room holding an
      element list that is replaced wholesale.  Embedded in [Module Rooms].

    Both are single-threaded event handlers, so each handler is a function
    from the state before the event to the state after it together with the
    messages it emitted, in emission order. *)

From Stdlib Require Import QArith.
From stdpp Require Import gmap strings list fin_maps pretty.

Set Warnings "-register-all".
Local Open Scope string_scope.

(** ** JavaScript values *)

(** JSON numbers are finite doubles, hence rationals.  The servers never
    compute with a number: they test truthiness and copy. *)
Definition number : Type := Q.

(** The values a handler can meet: JSON data received from a client, and
    the built-in functions and objects reached through [Object.prototype]
    when a plain object is indexed with a name such as ["constructor"]. *)
Inductive jsval : Type :=
| JUndefined
| JNull
| JBool (b : bool)
| JNum (n : number)
| JStr (s : string)
| JArr (l : list jsval)
| JObj (m : gmap string jsval)
| JBuiltin (name : string).

(** A JavaScript object seen as its own enumerable properties. *)
Abbreviation jsobj := (gmap string jsval).

(** ToBoolean. *)
Definition truthy (v : jsval) : bool :=
  match v with
  | JUndefined | JNull => false
  | JBool b => b
  | JNum n => negb (Qnum n =? 0)%Z
  | JStr s => negb (String.eqb s "")
  | JArr _ | JObj _ | JBuiltin _ => true
  end.

(** The characters of a string, as one-character strings (code units in
    JavaScript, bytes here: the same for ASCII). *)
Fixpoint chars (s : string) : list jsval :=
  match s with
  | EmptyString => []
  | String c s' => JStr (String c EmptyString) :: chars s'
  end.

(** The index-keyed properties ["0"], ["1"], ... of an array or string. *)
Definition indexed (l : list jsval) : jsobj :=
  list_to_map (imap (λ i v, (pretty i, v)) l).

(** Object spread [{...v}]: the own enumerable properties of [v]; nothing
    for [undefined], [null], numbers, booleans and built-ins. *)
Definition spread (v : jsval) : jsobj :=
  match v with
  | JObj m => m
  | JArr l => indexed l
  | JStr s => indexed (chars s)
  | _ => ∅
  end.

(** The names every plain object inherits from [Object.prototype]. *)
Definition object_prototype_names : list string :=
  [ "constructor"; "__defineGetter__"; "__defineSetter__"; "hasOwnProperty";
    "__lookupGetter__"; "__lookupSetter__"; "isPrototypeOf";
    "propertyIsEnumerable"; "toString"; "valueOf"; "__proto__";
    "toLocaleString" ].

Definition inherited (k : string) : jsval :=
  if bool_decide (k ∈ object_prototype_names) then JBuiltin k else JUndefined.

(** [v.props]: an own property if [v] is an object that has one; no
    prototype of any value defines [props]. *)
Definition get_props (v : jsval) : jsval :=
  match v with
  | JObj m => default JUndefined (m !! "props")
  | _ => JUndefined
  end.

(** ** JavaScript [Map]: keyed, iterated in insertion order *)

Module JSMap.

Abbreviation t V := (list (string * V)).

Section ops.
Context {V : Type}.

Definition empty : t V := [].

Fixpoint get (k : string) (m : t V) : option V :=
  match m with
  | [] => None
  | (k', v) :: m' => if decide (k = k') then Some v else get k m'
  end.

Definition has (k : string) (m : t V) : bool := bool_decide (is_Some (get k m)).

Fixpoint replace (k : string) (v : V) (m : t V) : t V :=
  match m with
  | [] => []
  | (k', v') :: m' =>
      if decide (k = k') then (k', v) :: m' else (k', v') :: replace k v m'
  end.

(** [m.set(k, v)]: an existing key keeps its place, a new key goes last. *)
Definition set (k : string) (v : V) (m : t V) : t V :=
  if has k m then replace k v m else (m ++ [(k, v)])%list.

Definition delete (k : string) (m : t V) : t V :=
  filter (λ kv, kv.1 ≠ k) m.

Definition size (m : t V) : nat := length m.

Definition values (m : t V) : list V := m.*2.

Definition keys (m : t V) : list string := m.*1.
End ops.
End JSMap.

(** ** The NestJS gateway: one global keyed object store *)

Module Gateway.

(** [type WhiteboardObject = { id: string; props: Record<string, unknown>;
    [key: string]: unknown }]: a message body as the type declares it. *)
Record WhiteboardObject := {
  id : string;
  props : jsobj;
  rest : jsobj;
}.

(** The message body as the runtime object it is. *)
Definition to_obj (data : WhiteboardObject) : jsobj :=
  <["id" := JStr (id data)]> (<["props" := JObj (props data)]> (rest data)).

(** [this.objects]: a plain object used as a map.  [own] are its own
    properties; [proto] is [None] while its prototype is [Object.prototype]
    and [Some p] once an assignment to ["__proto__"] has made [p] (itself a
    plain object) its prototype. *)
Record Store := {
  own : gmap string jsobj;
  proto : option jsobj;
}.

Definition empty_store : Store := {| own := ∅; proto := None |}.

(** [objects[k]]: own property, then the prototype chain. *)
Definition store_get (s : Store) (k : string) : jsval :=
  match own s !! k with
  | Some o => JObj o
  | None =>
      match proto s with
      | None => inherited k
      | Some p =>
          match p !! k with
          | Some v => v
          | None => if decide (k = "__proto__") then JObj p else inherited k
          end
      end
  end.

(** [objects[k] = o].  Everything on the chain is a writable data property,
    so the assignment makes an own property, except for the accessor
    [Object.prototype.__proto__], whose setter replaces the prototype. *)
Definition store_set (k : string) (o : jsobj) (s : Store) : Store :=
  let reaches_setter :=
    bool_decide (k = "__proto__") &&
    bool_decide (own s !! k = None) &&
    match proto s with
    | Some p => bool_decide (p !! k = None)
    | None => true
    end in
  if reaches_setter then {| own := own s; proto := Some o |}
  else {| own := <[k := o]> (own s); proto := proto s |}.

(** [delete objects[k]] only ever removes an own property. *)
Definition store_delete (k : string) (s : Store) : Store :=
  {| own := delete k (own s); proto := proto s |}.

(** [Object.values(objects)].  The model keeps the collection of own values,
    not JavaScript's enumeration order. *)
Definition store_values (s : Store) : list jsobj := (map_to_list (own s)).*2.

(** [EventLogService]: entries without their wall-clock timestamp. *)
Record LogEntry := {
  event : string;
  payload : jsval;
}.

Record State := {
  objects : Store;
  eventLogs : list LogEntry;
  clients : gset string;   (* the sockets the transport holds open *)
}.

Definition init : State :=
  {| objects := empty_store; eventLogs := []; clients := ∅ |}.

(** [eventLogs.push(newLog); if (eventLogs.length > 100) eventLogs.shift()] *)
Definition log (eventName : string) (p : jsval) (st : State) : State :=
  let pushed := (eventLogs st ++ [{| event := eventName; payload := p |}])%list in
  {| objects := objects st;
     eventLogs := if decide (100 < length pushed) then tail pushed else pushed;
     clients := clients st |}.

Definition with_objects (s : Store) (st : State) : State :=
  {| objects := s; eventLogs := eventLogs st; clients := clients st |}.

Inductive Emission :=
| Emit (client : string) (eventName : string) (body : jsval)
    (* client.emit(...) *)
| Broadcast (client : string) (eventName : string) (body : jsval)
    (* client.broadcast.emit(...) *).

(** Who a message is delivered to, given the open sockets. *)
Definition recipients (st : State) (e : Emission) : gset string :=
  match e with
  | Emit c _ _ => {[c]}
  | Broadcast c _ _ => clients st ∖ {[c]}
  end.

Definition sync_body (s : Store) : jsval :=
  JObj {[ "objects" := JArr (JObj <$> store_values s) ]}.

Definition handleConnection (client : string) (st : State)
  : State * list Emission :=
  let st := {| objects := objects st; eventLogs := eventLogs st;
               clients := {[client]} ∪ clients st |} in
  let st := log "client:connected" (JObj {[ "clientId" := JStr client ]}) st in
  let st := log "client:syncing" (sync_body (objects st)) st in
  (st, [Emit client "object:sync" (sync_body (objects st))]).

Definition handleDisconnect (client : string) (st : State)
  : State * list Emission :=
  let st := {| objects := objects st; eventLogs := eventLogs st;
               clients := clients st ∖ {[client]} |} in
  (log "client:disconnected" (JObj {[ "clientId" := JStr client ]}) st, []).

Definition handleObjectAdded (data : WhiteboardObject) (client : string)
  (st : State) : State * list Emission :=
  let st := log "object:added" (JObj (to_obj data)) st in
  let st := with_objects (store_set (id data) (to_obj data) (objects st)) st in
  (st, [Broadcast client "object:added" (JObj (to_obj data))]).

Definition handleObjectModified (data : WhiteboardObject) (client : string)
  (st : State) : State * list Emission :=
  let st := log "object:modified" (JObj (to_obj data)) st in
  let cur := store_get (objects st) (id data) in
  if truthy cur then
    (* in [{...a, ...b}] the later spread wins; [∪] prefers its left side *)
    let merged := props data ∪ spread (get_props cur) in
    let updated := <["props" := JObj merged]> (spread cur) in
    (with_objects (store_set (id data) updated (objects st)) st,
     [Broadcast client "object:modified" (JObj (to_obj data))])
  else (st, []).

Definition handleObjectRemoved (data : WhiteboardObject) (client : string)
  (st : State) : State * list Emission :=
  let st := log "object:removed" (JObj (to_obj data)) st in
  let st := with_objects (store_delete (id data) (objects st)) st in
  (st, [Broadcast client "object:removed" (JObj (to_obj data))]).

Definition handleCanvasClear (client : string) (st : State)
  : State * list Emission :=
  let st := log "canvas:clear" (JObj ∅) st in
  (with_objects empty_store st, [Broadcast client "canvas:clear" JUndefined]).

Inductive Event :=
| Connect (client : string)
| Disconnect (client : string)
| ObjectAdded (client : string) (data : WhiteboardObject)
| ObjectModified (client : string) (data : WhiteboardObject)
| ObjectRemoved (client : string) (data : WhiteboardObject)
| CanvasClear (client : string).

Definition step (e : Event) (st : State) : State * list Emission :=
  match e with
  | Connect client => handleConnection client st
  | Disconnect client => handleDisconnect client st
  | ObjectAdded client data => handleObjectAdded data client st
  | ObjectModified client data => handleObjectModified data client st
  | ObjectRemoved client data => handleObjectRemoved data client st
  | CanvasClear client => handleCanvasClear client st
  end.

Fixpoint run (es : list Event) (st : State) : State * list Emission :=
  match es with
  | [] => (st, [])
  | e :: es' =>
      let '(st', out) := step e st in
      let '(st'', out') := run es' st' in
      (st'', (out ++ out')%list)
  end.

(** Message bodies used in the worked scenarios. *)
Definition rect_r1 : WhiteboardObject :=
  {| id := "r1"; props := {[ "shape" := JStr "rect" ]}; rest := ∅ |}.

Definition red_r1 : WhiteboardObject :=
  {| id := "r1"; props := {[ "color" := JStr "red" ]}; rest := ∅ |}.

Definition red_constructor : WhiteboardObject :=
  {| id := "constructor"; props := {[ "color" := JStr "red" ]}; rest := ∅ |}.

Definition red_ghost : WhiteboardObject :=
  {| id := "ghost"; props := {[ "color" := JStr "red" ]}; rest := ∅ |}.

(** Alice and Bob connected, nothing drawn yet. *)
Definition alice_and_bob : State := (run [Connect "alice"; Connect "bob"] init).1.

(** [EventLogService.getLogs], which [AppController.getLogs] returns as is. *)
Definition getLogs (st : State) : list LogEntry := eventLogs st.

(** The states the gateway can be in: those some sequence of events leads
    to from the start. *)
Definition reachable (st : State) : Prop := ∃ es, st = (run es init).1.

(** A message body whose id is the one name a plain object treats as an
    accessor. *)
Definition proto_body : WhiteboardObject :=
  {| id := "__proto__"; props := {[ "shape" := JStr "rect" ]}; rest := ∅ |}.

End Gateway.

(** ** The Express server: rooms with wholesale canvas replacement *)

Module Rooms.

Record User := {
  user_id : string;
  name : string;
  color : string;
  cursor : option (number * number);   (* [{x, y}] or [null] *)
  isDrawing : bool;
}.

Record Room := {
  room_id : string;
  users : JSMap.t User;
  canvasState : list jsval;
  lastUpdate : number;
}.

(** The server's [rooms] map together with what the Socket.IO transport
    keeps: for every open socket the set [socket.rooms] of channels it is in
    (always including the channel named by its own id), and the ids of the
    sockets that have disconnected (an id is never issued twice). *)
Record State := {
  rooms : JSMap.t Room;
  sockets : gmap string (gset string);
  closed : gset string;
}.

Definition init : State := {| rooms := JSMap.empty; sockets := ∅; closed := ∅ |}.

Definition userColors : list string :=
  [ "#FF6B6B"; "#4ECDC4"; "#45B7D1"; "#96CEB4";
    "#FFEAA7"; "#DDA0DD"; "#98D8E8"; "#F7DC6F" ].

(** [a || b] where [a] is a string or [undefined]. *)
Definition or_else (a : option string) (b : string) : string :=
  match a with
  | Some s => if truthy (JStr s) then s else b
  | None => b
  end.

Definition getAvailableColor (room : Room) : string :=
  let usedColors := color <$> JSMap.values (users room) in
  or_else (List.find (λ c, negb (bool_decide (c ∈ usedColors))) userColors)
          (default "" (userColors !! 0%nat)).

Inductive Msg :=
| room_created (roomId : string) (user : User)
| room_error (reason : string)
| room_joined (roomId : string) (user : User) (all : list User)
    (canvas : list jsval)
| user_joined (user : User)
| canvas_updated (elements : list jsval) (userId : string) (timestamp : number)
| cursor_updated (userId : string) (pos : option (number * number))
    (colour : string) (uname : string) (drawing : bool)
| user_drawing_start (userId : string) (colour : string) (uname : string)
| user_drawing_end (userId : string)
| sync_response (canvas : list jsval) (timestamp : number) (all : list User)
| user_left (userId : string) (uname : string).

Inductive Emission :=
| Emit (sid : string) (m : Msg)                      (* socket.emit *)
| EmitTo (roomId : string) (sid : string) (m : Msg)  (* socket.to(roomId).emit *).

(** Delivery: [socket.emit] reaches the socket itself; [socket.to(r).emit]
    reaches every open socket in channel [r] other than the sender. *)
Definition recipients (st : State) (e : Emission) : gset string :=
  match e with
  | Emit sid _ => {[sid]}
  | EmitTo r sid _ =>
      dom (filter (λ kv, r ∈ kv.2 ∧ kv.1 ≠ sid) (sockets st))
  end.

Definition with_rooms (rs : JSMap.t Room) (st : State) : State :=
  {| rooms := rs; sockets := sockets st; closed := closed st |}.

Definition with_users (us : JSMap.t User) (room : Room) : Room :=
  {| room_id := room_id room; users := us;
     canvasState := canvasState room; lastUpdate := lastUpdate room |}.

Definition with_cursor (c : option (number * number)) (u : User) : User :=
  {| user_id := user_id u; name := name u; color := color u;
     cursor := c; isDrawing := isDrawing u |}.

Definition with_isDrawing (b : bool) (u : User) : User :=
  {| user_id := user_id u; name := name u; color := color u;
     cursor := cursor u; isDrawing := b |}.

(** [socket.join(roomId)] *)
Definition socket_join (sid roomId : string) (st : State) : State :=
  {| rooms := rooms st;
     sockets := alter (λ chans, {[roomId]} ∪ chans) sid (sockets st);
     closed := closed st |}.

(** [let roomId = generateRoomId(); while (rooms.has(roomId)) roomId =
    generateRoomId();] run against the successive results [draws] of
    [generateRoomId]; [None] when every draw supplied is taken, that is,
    when the loop has not ended yet. *)
Fixpoint pick_room_id (draws : list string) (rs : JSMap.t Room)
  : option string :=
  match draws with
  | [] => None
  | d :: ds => if JSMap.has d rs then pick_room_id ds rs else Some d
  end.

Definition new_user (sid username : string) (room : Room) : User :=
  {| user_id := sid; name := username; color := getAvailableColor room;
     cursor := None; isDrawing := false |}.

Definition create_room (sid username : string) (draws : list string)
  (now : number) (st : State) : option (State * list Emission) :=
  match pick_room_id draws (rooms st) with
  | None => None
  | Some roomId =>
      let room := {| room_id := roomId; users := JSMap.empty;
                     canvasState := []; lastUpdate := now |} in
      let user := new_user sid username room in
      let room := with_users (JSMap.set sid user (users room)) room in
      let st := with_rooms (JSMap.set roomId room (rooms st)) st in
      let st := socket_join sid roomId st in
      Some (st, [Emit sid (room_created roomId user)])
  end.

Definition join_room (sid roomId username : string) (st : State)
  : State * list Emission :=
  match JSMap.get roomId (rooms st) with
  | None => (st, [Emit sid (room_error "Room not found")])
  | Some room =>
      if decide (10 ≤ JSMap.size (users room))%nat then
        (st, [Emit sid (room_error "Room is full")])
      else
        let user := new_user sid username room in
        let room := with_users (JSMap.set sid user (users room)) room in
        let st := with_rooms (JSMap.set roomId room (rooms st)) st in
        let st := socket_join sid roomId st in
        (st, [ Emit sid (room_joined roomId user (JSMap.values (users room))
                           (canvasState room));
               EmitTo roomId sid (user_joined user) ])
  end.

Definition canvas_update (sid roomId : string) (elements : list jsval)
  (timestamp : number) (st : State) : State * list Emission :=
  match JSMap.get roomId (rooms st) with
  | None => (st, [])
  | Some room =>
      let room := {| room_id := room_id room; users := users room;
                     canvasState := elements; lastUpdate := timestamp |} in
      (with_rooms (JSMap.set roomId room (rooms st)) st,
       [EmitTo roomId sid (canvas_updated elements sid timestamp)])
  end.

(** The three presence handlers share one shape: find the room, find the
    sender's [User] object in it, mutate that object in place, tell the
    others. *)
Definition on_user (sid roomId : string) (change : User → User)
  (notice : User → Msg) (st : State) : State * list Emission :=
  match JSMap.get roomId (rooms st) with
  | None => (st, [])
  | Some room =>
      match JSMap.get sid (users room) with
      | None => (st, [])
      | Some user =>
          let user := change user in
          let room := with_users (JSMap.set sid user (users room)) room in
          (with_rooms (JSMap.set roomId room (rooms st)) st,
           [EmitTo roomId sid (notice user)])
      end
  end.

Definition cursor_move (sid roomId : string) (x y : number) :=
  on_user sid roomId (with_cursor (Some (x, y)))
    (λ user, cursor_updated sid (cursor user) (color user) (name user)
               (isDrawing user)).

Definition drawing_start (sid roomId : string) :=
  on_user sid roomId (with_isDrawing true)
    (λ user, user_drawing_start sid (color user) (name user)).

Definition drawing_end (sid roomId : string) :=
  on_user sid roomId (with_isDrawing false) (λ _, user_drawing_end sid).

Definition request_sync (sid roomId : string) (st : State)
  : State * list Emission :=
  match JSMap.get roomId (rooms st) with
  | None => (st, [])
  | Some room =>
      (st, [Emit sid (sync_response (canvasState room) (lastUpdate room)
                        (JSMap.values (users room)))])
  end.

(** [for (const [roomId, room] of rooms.entries()) { if
    (room.users.has(socket.id)) { ...; break; } }]: [entries] is what is
    left to iterate, [rs] the map being mutated. *)
Fixpoint disconnect_loop (sid : string) (entries : list (string * Room))
  (rs : JSMap.t Room) : JSMap.t Room * list Emission :=
  match entries with
  | [] => (rs, [])
  | (roomId, room) :: entries' =>
      match JSMap.get sid (users room) with
      | Some user =>
          let room := with_users (JSMap.delete sid (users room)) room in
          if decide (JSMap.size (users room) = 0%nat) then
            (JSMap.delete roomId rs, [])
          else
            (JSMap.set roomId room rs,
             [EmitTo roomId sid (user_left sid (name user))])
      | None => disconnect_loop sid entries' rs
      end
  end.

(** By the time the ['disconnect'] handler runs the transport has taken the
    socket out of every channel. *)
Definition disconnect (sid : string) (st : State) : State * list Emission :=
  let st := {| rooms := rooms st; sockets := delete sid (sockets st);
               closed := {[sid]} ∪ closed st |} in
  let '(rs, out) := disconnect_loop sid (rooms st) (rooms st) in
  (with_rooms rs st, out).

(** [io.on('connection', ...)]: a new socket, alone in its own channel. *)
Definition connection (sid : string) (st : State) : State :=
  {| rooms := rooms st; sockets := <[sid := {[sid]}]> (sockets st);
     closed := closed st |}.

Inductive Event :=
| Connection (sid : string)
| CreateRoom (sid username : string) (draws : list string) (now : number)
| JoinRoom (sid roomId username : string)
| CanvasUpdate (sid roomId : string) (elements : list jsval)
    (timestamp : number)
| CursorMove (sid roomId : string) (x y : number)
| DrawingStart (sid roomId : string)
| DrawingEnd (sid roomId : string)
| RequestSync (sid roomId : string)
| Disconnect (sid : string).

Definition sender (e : Event) : string :=
  match e with
  | Connection sid | CreateRoom sid _ _ _ | JoinRoom sid _ _
  | CanvasUpdate sid _ _ _ | CursorMove sid _ _ _ | DrawingStart sid _
  | DrawingEnd sid _ | RequestSync sid _ | Disconnect sid => sid
  end.

(** One event of the transport.  [None] means the event cannot happen: a
    connection under an id already issued, a message on a socket that is not
    open, or a [create_room] whose id loop is still running. *)
Definition step (e : Event) (st : State) : option (State * list Emission) :=
  match e with
  | Connection sid =>
      if decide (sid ∈ dom (sockets st) ∨ sid ∈ closed st) then None
      else Some (connection sid st, [])
  | _ =>
      if decide (sender e ∈ dom (sockets st)) then
        match e with
        | Connection _ => None
        | CreateRoom sid username draws now =>
            create_room sid username draws now st
        | JoinRoom sid roomId username => Some (join_room sid roomId username st)
        | CanvasUpdate sid roomId elements timestamp =>
            Some (canvas_update sid roomId elements timestamp st)
        | CursorMove sid roomId x y => Some (cursor_move sid roomId x y st)
        | DrawingStart sid roomId => Some (drawing_start sid roomId st)
        | DrawingEnd sid roomId => Some (drawing_end sid roomId st)
        | RequestSync sid roomId => Some (request_sync sid roomId st)
        | Disconnect sid => Some (disconnect sid st)
        end
      else None
  end.

(** A whole trace, keeping the state reached and all messages emitted. *)
Fixpoint run (es : list Event) (st : State) : option (State * list Emission) :=
  match es with
  | [] => Some (st, [])
  | e :: es' =>
      match step e st with
      | None => None
      | Some (st', out) =>
          match run es' st' with
          | None => None
          | Some (st'', out') => Some (st'', (out ++ out')%list)
          end
      end
  end.

Definition reachable (st : State) : Prop :=
  ∃ es out, run es init = Some (st, out).

Definition state_after (es : list Event) : State :=
  match run es init with
  | Some (st, _) => st
  | None => init
  end.

(** [s] is listed in the [users] map of the room registered under [r]. *)
Definition participant (st : State) (r s : string) : Prop :=
  ∃ room, JSMap.get r (rooms st) = Some room ∧ is_Some (JSMap.get s (users room)).

(** The palette rule in the spec's words: [c] is the first palette entry no
    participant uses, or the first palette entry when all are used. *)
Definition first_unused_or_first (used : list string) (c : string) : Prop :=
  (∃ i, userColors !! i = Some c ∧ (c ∉ used) ∧
        (∀ j c', (j < i)%nat → userColors !! j = Some c' → c' ∈ used)) ∨
  ((∀ c', c' ∈ userColors → c' ∈ used) ∧ userColors !! 0%nat = Some c).

(** [u'] has the id, name and colour of [u]. *)
Definition same_identity (u u' : User) : Prop :=
  user_id u' = user_id u ∧ name u' = name u ∧ color u' = color u.

(** A room as every handler leaves it: filed under its own id, at most ten
    participants, each filed under its own socket id and wearing a palette
    colour. *)
Definition room_ok (r : string) (room : Room) : Prop :=
  room_id room = r ∧
  (JSMap.size (users room) ≤ 10)%nat ∧
  ∀ s u, JSMap.get s (users room) = Some u →
         user_id u = s ∧ color u ∈ userColors.

(** What a handler that rewrites one room does: the room filed under [r0]
    becomes [room'], the sender [sid] may enter the room's channel, nobody
    leaves the room, and a well-kept room stays well kept. *)
Definition replaces_room (st st' : State) (sid r0 : string) (room' : Room)
  : Prop :=
  rooms st' = JSMap.set r0 room' (rooms st) ∧
  closed st' = closed st ∧
  (sockets st' = sockets st ∨
   (sockets st' = alter (λ chans, {[r0]} ∪ chans) sid (sockets st) ∧
    is_Some (JSMap.get sid (users room')))) ∧
  (∀ s, participant st r0 s → is_Some (JSMap.get s (users room'))) ∧
  ((∀ r room, JSMap.get r (rooms st) = Some room → room_ok r room) →
   room_ok r0 room').

(** The room an event names, if it names one. *)
Definition named_room (e : Event) : option string :=
  match e with
  | JoinRoom _ r _ | CanvasUpdate _ r _ _ | CursorMove _ r _ _
  | DrawingStart _ r | DrawingEnd _ r | RequestSync _ r => Some r
  | Connection _ | CreateRoom _ _ _ _ | Disconnect _ => None
  end.

(** Every channel an open socket is in is its own or that of a room it is
    a participant of. *)
Definition channels_are_rooms (st : State) : Prop :=
  ∀ s chans r,
    sockets st !! s = Some chans → r ∈ chans → r = s ∨ participant st r s.

(** What holds of every state the server can be in. *)
Record invariant (st : State) : Prop := {
  inv_keys : NoDup (JSMap.keys (rooms st));
  inv_occupied : ∀ r room,
    JSMap.get r (rooms st) = Some room → (0 < JSMap.size (users room))%nat;
  inv_known : ∀ r s,
    participant st r s → s ∈ dom (sockets st) ∨ s ∈ closed st;
  inv_channel : ∀ r s chans,
    participant st r s → sockets st !! s = Some chans → r ∈ chans;
}.

(** Worked traces. *)

(** The room registered under [r] in a state known to have one. *)
Definition the_room (r : string) (st : State) : Room :=
  default {| room_id := r; users := JSMap.empty; canvasState := [];
             lastUpdate := 0%Q |}
          (JSMap.get r (rooms st)).

(** One room, ["ROOM01"], created by [s1] and joined by [s2] to [s9]. *)
Definition nine_in_room : list Event :=
  (Connection <$> ["s1"; "s2"; "s3"; "s4"; "s5"; "s6"; "s7"; "s8"; "s9"]) ++
  [CreateRoom "s1" "u1" ["ROOM01"] 0%Q] ++
  ((λ s, JoinRoom s "ROOM01" "guest") <$>
     ["s2"; "s3"; "s4"; "s5"; "s6"; "s7"; "s8"; "s9"]).

(** Alice creates a room and Bob joins it. *)
Definition alice_and_bob : list Event :=
  [ Connection "a"; Connection "b";
    CreateRoom "a" "Alice" ["ROOM01"] 0%Q; JoinRoom "b" "ROOM01" "Bob" ].

(** Alice alone in her room; Carol is connected but has joined nothing. *)
Definition alice_and_outsider : list Event :=
  [ Connection "a"; Connection "c"; CreateRoom "a" "Alice" ["ROOM01"] 0%Q ].

(** After [alice_and_bob], Bob creates a second room and Alice joins it. *)
Definition two_rooms_each : list Event :=
  alice_and_bob ++
  [ CreateRoom "b" "Bob" ["ROOM02"] 1%Q; JoinRoom "a" "ROOM02" "Alice" ].

(** Alice creates two rooms from one connection. *)
Definition alice_twice : list Event :=
  [ Connection "a"; CreateRoom "a" "Alice" ["ROOM01"] 0%Q;
    CreateRoom "a" "Alice" ["ROOM01"; "ROOM02"] 1%Q ].

End Rooms.

(** * Properties *)

(** ** [JSMap]: the laws of [get], [set] and [delete] *)

Module JSMapFacts.
Section facts.
Context {V : Type}.
Implicit Types (m : JSMap.t V) (k : string) (v : V).

Lemma has_true k m : JSMap.has k m = true ↔ is_Some (JSMap.get k m).
Proof. unfold JSMap.has. apply bool_decide_eq_true. Qed.

Lemma has_false k m : JSMap.has k m = false ↔ JSMap.get k m = None.
Proof.
  unfold JSMap.has. rewrite bool_decide_eq_false.
  symmetry. apply eq_None_not_Some.
Qed.

Lemma get_replace_eq k v m :
  is_Some (JSMap.get k m) → JSMap.get k (JSMap.replace k v m) = Some v.
Proof.
  induction m as [|[k' v'] m IH]; simpl.
  - intros [? ?]; discriminate.
  - destruct (decide (k = k')) as [->|Hne]; simpl.
    + intros _. by rewrite decide_True.
    + intros H. rewrite decide_False by done. auto.
Qed.

Lemma get_replace_ne k k' v m :
  k ≠ k' → JSMap.get k' (JSMap.replace k v m) = JSMap.get k' m.
Proof.
  intros Hne. induction m as [|[k0 v0] m IH]; simpl; [done|].
  destruct (decide (k = k0)) as [->|Hk]; simpl.
  - by rewrite !decide_False by congruence.
  - destruct (decide (k' = k0)); [done|apply IH].
Qed.

Lemma get_app_None k m1 m2 :
  JSMap.get k m1 = None → JSMap.get k (m1 ++ m2)%list = JSMap.get k m2.
Proof.
  induction m1 as [|[k' v'] m1 IH]; simpl; [done|].
  destruct (decide (k = k')); [discriminate|apply IH].
Qed.

Lemma get_app_Some k v m1 m2 :
  JSMap.get k m1 = Some v → JSMap.get k (m1 ++ m2)%list = Some v.
Proof.
  induction m1 as [|[k' v'] m1 IH]; simpl; [discriminate|].
  destruct (decide (k = k')); [done|apply IH].
Qed.

Lemma get_set_eq k v m : JSMap.get k (JSMap.set k v m) = Some v.
Proof.
  unfold JSMap.set. destruct (JSMap.has k m) eqn:Hhas.
  - apply get_replace_eq. by apply has_true.
  - apply has_false in Hhas. rewrite get_app_None by done.
    simpl. by rewrite decide_True.
Qed.

Lemma get_set_ne k k' v m :
  k ≠ k' → JSMap.get k' (JSMap.set k v m) = JSMap.get k' m.
Proof.
  intros Hne. unfold JSMap.set. destruct (JSMap.has k m).
  - by apply get_replace_ne.
  - destruct (JSMap.get k' m) as [v'|] eqn:Hget.
    + by apply get_app_Some.
    + rewrite get_app_None by done. simpl. by rewrite decide_False.
Qed.

Lemma get_delete_eq k m : JSMap.get k (JSMap.delete k m) = None.
Proof.
  unfold JSMap.delete. induction m as [|[k' v'] m IH]; [done|].
  rewrite filter_cons. simpl. destruct (decide (k' ≠ k)); simpl; [|done].
  by rewrite decide_False.
Qed.

Lemma get_delete_ne k k' m :
  k ≠ k' → JSMap.get k' (JSMap.delete k m) = JSMap.get k' m.
Proof.
  intros Hne. unfold JSMap.delete.
  induction m as [|[k0 v0] m IH]; [done|].
  rewrite filter_cons. simpl. destruct (decide (k0 ≠ k)) as [Hk|Hk]; simpl.
  - by rewrite IH.
  - apply dec_stable in Hk as ->. by rewrite decide_False.
Qed.

Lemma length_replace k v m : length (JSMap.replace k v m) = length m.
Proof.
  induction m as [|[k' v'] m IH]; simpl; [done|].
  destruct (decide (k = k')); simpl; congruence.
Qed.

Lemma size_set_present k v m :
  is_Some (JSMap.get k m) → JSMap.size (JSMap.set k v m) = JSMap.size m.
Proof.
  intros H. apply has_true in H. unfold JSMap.set, JSMap.size.
  rewrite H. apply length_replace.
Qed.

Lemma size_set_absent k v m :
  JSMap.get k m = None → JSMap.size (JSMap.set k v m) = S (JSMap.size m).
Proof.
  intros H. apply has_false in H. unfold JSMap.set, JSMap.size.
  rewrite H, length_app. simpl. lia.
Qed.

Lemma size_pos_of_get k v m : JSMap.get k m = Some v → (0 < JSMap.size m)%nat.
Proof. destruct m; simpl; [discriminate|intros _; unfold JSMap.size; simpl; lia]. Qed.

Lemma get_Some_values k v m : JSMap.get k m = Some v → v ∈ JSMap.values m.
Proof.
  unfold JSMap.values. induction m as [|[k' v'] m IH]; simpl; [discriminate|].
  destruct (decide (k = k')).
  - intros [= ->]. apply list_elem_of_here.
  - intros H. apply list_elem_of_further. auto.
Qed.

Lemma values_get v m : v ∈ JSMap.values m → ∃ k, (k, v) ∈ m.
Proof.
  unfold JSMap.values. intros H. apply list_elem_of_fmap in H as [[k v'] [-> H]].
  eauto.
Qed.

Lemma replace_absent k v m : JSMap.get k m = None → JSMap.replace k v m = m.
Proof.
  induction m as [|[k' v'] m IH]; simpl; [done|].
  destruct (decide (k = k')); [discriminate|]. intros H. by rewrite IH.
Qed.

Lemma replace_app_absent k v v' m :
  JSMap.get k m = None →
  JSMap.replace k v (m ++ [(k, v')])%list = (m ++ [(k, v)])%list.
Proof.
  induction m as [|[k0 v0] m IH]; simpl.
  - intros _. by rewrite decide_True.
  - destruct (decide (k = k0)); [discriminate|]. intros H. by rewrite IH.
Qed.

Lemma replace_replace k v v' m :
  JSMap.replace k v (JSMap.replace k v' m) = JSMap.replace k v m.
Proof.
  induction m as [|[k0 v0] m IH]; simpl; [done|].
  destruct (decide (k = k0)) as [->|Hne]; simpl.
  - by rewrite decide_True.
  - rewrite decide_False by done. by rewrite IH.
Qed.

(** Setting a key twice is setting it once to the later value. *)
Lemma set_set k v v' m : JSMap.set k v (JSMap.set k v' m) = JSMap.set k v m.
Proof.
  assert (Hhas : JSMap.has k (JSMap.set k v' m) = true).
  { apply has_true. rewrite get_set_eq. eauto. }
  unfold JSMap.set at 1. rewrite Hhas. unfold JSMap.set.
  destruct (JSMap.has k m) eqn:Hm.
  - apply replace_replace.
  - apply has_false in Hm. by apply replace_app_absent.
Qed.

Lemma keys_replace k v m : JSMap.keys (JSMap.replace k v m) = JSMap.keys m.
Proof.
  unfold JSMap.keys. induction m as [|[k' v'] m IH]; csimpl; [done|].
  destruct (decide (k = k')); csimpl; [done|]. by rewrite IH.
Qed.

Lemma get_None_keys k m : JSMap.get k m = None ↔ k ∉ JSMap.keys m.
Proof.
  unfold JSMap.keys. induction m as [|[k' v'] m IH]; simpl.
  - split; [intros _; apply not_elem_of_nil|done].
  - rewrite not_elem_of_cons. destruct (decide (k = k')) as [->|Hne].
    + split; [discriminate|]. intros [? _]. done.
    + rewrite IH. tauto.
Qed.

Lemma NoDup_keys_get k v m :
  NoDup (JSMap.keys m) → (k, v) ∈ m → JSMap.get k m = Some v.
Proof.
  unfold JSMap.keys. induction m as [|[k' v'] m IH]; simpl.
  - intros _ H. by apply elem_of_nil in H.
  - intros Hnd Hin. apply NoDup_cons in Hnd as [Hk' Hnd].
    apply elem_of_cons in Hin as [[= -> ->]|Hin].
    + by rewrite decide_True.
    + destruct (decide (k = k')) as [->|Hne]; [|by apply IH].
      exfalso. apply Hk'. apply list_elem_of_fmap. by exists (k', v).
Qed.

Lemma get_Some_elem k v m : JSMap.get k m = Some v → (k, v) ∈ m.
Proof.
  induction m as [|[k' v'] m IH]; simpl; [discriminate|].
  destruct (decide (k = k')) as [->|Hne].
  - intros [= ->]. apply list_elem_of_here.
  - intros H. apply list_elem_of_further. auto.
Qed.

Lemma NoDup_keys_set k v m :
  NoDup (JSMap.keys m) → NoDup (JSMap.keys (JSMap.set k v m)).
Proof.
  intros Hnd. unfold JSMap.set. destruct (JSMap.has k m) eqn:Hhas.
  - by rewrite keys_replace.
  - apply has_false, get_None_keys in Hhas. unfold JSMap.keys in *.
    rewrite fmap_app. simpl. apply NoDup_app. split; [done|].
    split; [|apply NoDup_singleton].
    intros x Hx Hx'. apply list_elem_of_singleton in Hx' as ->. done.
Qed.

Lemma NoDup_keys_delete k m :
  NoDup (JSMap.keys m) → NoDup (JSMap.keys (JSMap.delete k m)).
Proof.
  unfold JSMap.keys, JSMap.delete. induction m as [|[k' v'] m IH]; [done|].
  rewrite filter_cons. simpl. intros Hnd. apply NoDup_cons in Hnd as [Hk' Hnd].
  destruct (decide (k' ≠ k)); simpl; [|auto].
  apply NoDup_cons. split; [|auto].
  intros Hin. apply Hk'. apply list_elem_of_fmap in Hin as [[k0 v0] [-> Hin]].
  apply list_elem_of_filter in Hin as [_ Hin].
  apply list_elem_of_fmap. by exists (k0, v0).
Qed.

End facts.
End JSMapFacts.

(** ** The gateway's object store *)

Module GatewayFacts.
Import Gateway.

Lemma objects_log e p st : objects (log e p st) = objects st.
Proof. reflexivity. Qed.

Lemma clients_log e p st : clients (log e p st) = clients st.
Proof. reflexivity. Qed.

Lemma store_get_own s k o : own s !! k = Some o → store_get s k = JObj o.
Proof. intros H. unfold store_get. by rewrite H. Qed.

Lemma store_set_own s k o o' :
  own s !! k = Some o →
  store_set k o' s = {| own := <[k := o']> (own s); proto := proto s |}.
Proof.
  intros H. unfold store_set. rewrite H.
  rewrite (bool_decide_eq_false_2 (Some o = None)) by done.
  by rewrite andb_false_r.
Qed.

(** A name that [Object.prototype] does not define and that the store does
    not hold reads as [undefined] while the store's prototype is untouched. *)
Lemma store_get_absent s k :
  own s !! k = None → proto s = None → k ∉ object_prototype_names →
  store_get s k = JUndefined.
Proof.
  intros Hown Hproto Hk. unfold store_get, inherited.
  rewrite Hown, Hproto. by rewrite bool_decide_eq_false_2.
Qed.

(** [object:modified] for such a name changes nothing and tells nobody. *)
Lemma modify_absent_plain_name st data client :
  own (objects st) !! id data = None →
  proto (objects st) = None →
  id data ∉ object_prototype_names →
  let '(st', out) := handleObjectModified data client st in
  objects st' = objects st ∧ clients st' = clients st ∧ out = [].
Proof.
  intros Hown Hproto Hk. unfold handleObjectModified.
  rewrite objects_log, store_get_absent by done. simpl. done.
Qed.

(** C1.  [object:modified] on a stored id shallow-merges the message's
    [props] (the spec's "properties") into the stored object's [props]: every
    key of the message takes the message's value, whether or not the stored
    object had it; every other key keeps its stored value; the rest of the
    stored object and all other entries are untouched.  In particular, once
    Alice has added [{id: "r1", props: {shape: "rect"}}] and Bob has modified
    with [{id: "r1", props: {color: "red"}}], the store holds
    [{id: "r1", props: {shape: "rect", color: "red"}}] under ["r1"]. *)
Theorem modify_shallow_merge (st : State) (data : WhiteboardObject)
  (client : string) (o p : jsobj) :
  own (objects st) !! id data = Some o →
  o !! "props" = Some (JObj p) →
  let st' := (handleObjectModified data client st).1 in
  (∃ o' p',
      own (objects st') !! id data = Some o' ∧
      o' !! "props" = Some (JObj p') ∧
      (∀ k v, props data !! k = Some v → p' !! k = Some v) ∧
      (∀ k, props data !! k = None → p' !! k = p !! k) ∧
      (∀ f, f ≠ "props" → o' !! f = o !! f)) ∧
  (∀ i, i ≠ id data → own (objects st') !! i = own (objects st) !! i) ∧
  own (objects (run [ObjectAdded "alice" rect_r1; ObjectModified "bob" red_r1]
                  alice_and_bob).1) !! "r1"
  = Some {[ "id" := JStr "r1";
            "props" := JObj {[ "shape" := JStr "rect";
                               "color" := JStr "red" ]} ]}.
Proof.
  intros Hown Hprops st'. subst st'. unfold handleObjectModified.
  rewrite objects_log, (store_get_own _ _ _ Hown). cbn [truthy fst].
  rewrite (store_set_own _ _ o) by done. cbn [objects with_objects own].
  split; [|split].
  - exists (<["props" := JObj (props data ∪ spread (get_props (JObj o)))]> o),
      (props data ∪ p).
    rewrite lookup_insert_eq. cbn [spread get_props]. rewrite Hprops. simpl.
    split; [done|]. rewrite lookup_insert_eq. split; [done|].
    split; [|split].
    + intros k v Hk. by apply lookup_union_Some_l.
    + intros k Hk. by rewrite lookup_union_r.
    + intros f Hf. by rewrite lookup_insert_ne.
  - intros i Hi. by rewrite lookup_insert_ne.
  - vm_compute. reflexivity.
Qed.

Lemma modify_shallow_merge_witness :
  let st := (run [ObjectAdded "alice" rect_r1] alice_and_bob).1 in
  own (objects st) !! id red_r1 = Some (to_obj rect_r1) ∧
  to_obj rect_r1 !! "props" = Some (JObj {[ "shape" := JStr "rect" ]}) ∧
  ∀ i, i ≠ "r1" →
    own (objects (handleObjectModified red_r1 "bob" st).1) !! i
    = own (objects st) !! i.
Proof.
  assert (H1 : own (objects (run [ObjectAdded "alice" rect_r1] alice_and_bob).1)
               !! id red_r1 = Some (to_obj rect_r1)) by (vm_compute; reflexivity).
  assert (H2 : to_obj rect_r1 !! "props"
               = Some (JObj {[ "shape" := JStr "rect" ]})) by (vm_compute; reflexivity).
  split; [exact H1|]. split; [exact H2|].
  exact (proj1 (proj2 (modify_shallow_merge _ red_r1 "bob" _ _ H1 H2))).
Defined.

(** C5.  The guard [if (this.objects[data.id])] reads through the prototype
    chain of the plain object [objects].  With nothing stored under
    ["constructor"], [object:modified] for that id finds the inherited
    [Object] function, takes it for a stored object, writes a new entry built
    from the message's [props] and broadcasts the event. *)
Theorem modify_absent_inherited_name :
  own (objects alice_and_bob) !! "constructor" = None ∧
  own (objects (handleObjectModified red_constructor "bob" alice_and_bob).1)
    !! "constructor"
  = Some {[ "props" := JObj {[ "color" := JStr "red" ]} ]} ∧
  (handleObjectModified red_constructor "bob" alice_and_bob).2
  = [Broadcast "bob" "object:modified" (JObj (to_obj red_constructor))] ∧
  recipients (handleObjectModified red_constructor "bob" alice_and_bob).1
    (Broadcast "bob" "object:modified" (JObj (to_obj red_constructor)))
  = {["alice"]}.
Proof. repeat split; vm_compute; reflexivity. Qed.

(** C6 as stated fails: removing an id that is not stored leaves the store
    as it was, yet the event is still broadcast, and Bob receives it. *)
Lemma remove_absent_still_broadcasts :
  own (objects alice_and_bob) !! id red_ghost = None ∧
  objects (handleObjectRemoved red_ghost "alice" alice_and_bob).1
  = objects alice_and_bob ∧
  (handleObjectRemoved red_ghost "alice" alice_and_bob).2 ≠ [] ∧
  "bob" ∈ recipients (handleObjectRemoved red_ghost "alice" alice_and_bob).1
            (Broadcast "alice" "object:removed" (JObj (to_obj red_ghost))).
Proof.
  split; [vm_compute; reflexivity|]. split; [vm_compute; reflexivity|].
  split; [discriminate|]. vm_compute. reflexivity.
Qed.

(** C6, amended.  [object:removed] deletes the entry under the id if there
    is one and leaves the store exactly as it was if there is none; every
    other entry is kept; and in both cases the event is broadcast, body
    unchanged, to every other client. *)
Theorem remove_deletes_and_broadcasts (st : State) (data : WhiteboardObject)
  (client : string) :
  let st' := (handleObjectRemoved data client st).1 in
  own (objects st') !! id data = None ∧
  (∀ i, i ≠ id data → own (objects st') !! i = own (objects st) !! i) ∧
  (own (objects st) !! id data = None → objects st' = objects st) ∧
  clients st' = clients st ∧
  (handleObjectRemoved data client st).2
  = [Broadcast client "object:removed" (JObj (to_obj data))] ∧
  recipients st' (Broadcast client "object:removed" (JObj (to_obj data)))
  = clients st ∖ {[client]}.
Proof.
  simpl. split; [apply lookup_delete_eq|].
  split; [intros i Hi; by apply lookup_delete_ne|].
  split; [|done].
  intros Habsent. destruct (objects st) as [ow pr]; simpl in *.
  unfold store_delete; simpl. f_equal. by apply delete_id.
Qed.

Lemma remove_deletes_and_broadcasts_witness :
  own (objects alice_and_bob) !! id red_ghost = None ∧
  objects (handleObjectRemoved red_ghost "alice" alice_and_bob).1
  = objects alice_and_bob.
Proof.
  assert (H : own (objects alice_and_bob) !! id red_ghost = None)
    by (vm_compute; reflexivity).
  split; [exact H|].
  exact (proj1 (proj2 (proj2
    (remove_deletes_and_broadcasts alice_and_bob red_ghost "alice"))) H).
Defined.

(** What a new connection is sent: one [object:sync] message, to itself,
    listing exactly the objects the store holds. *)
Lemma connection_sync (client : string) (st : State) :
  let st' := (handleConnection client st).1 in
  objects st' = objects st ∧
  clients st' = {[client]} ∪ clients st ∧
  (handleConnection client st).2
  = [Emit client "object:sync"
       (JObj {[ "objects" := JArr (JObj <$> store_values (objects st)) ]})] ∧
  (∀ o, o ∈ store_values (objects st) ↔ ∃ k, own (objects st) !! k = Some o).
Proof.
  simpl. repeat split; try done.
  - unfold store_values. intros H.
    apply list_elem_of_fmap in H as [[k o'] [-> H]].
    exists k. by apply elem_of_map_to_list.
  - intros [k Hk]. unfold store_values. apply list_elem_of_fmap.
    exists (k, o). split; [done|]. by apply elem_of_map_to_list.
Qed.

End GatewayFacts.

(** ** The room server *)

Module RoomsFacts.
Import Rooms JSMapFacts.

(** *** Joining and the palette *)

Lemma find_first {A} (f : A → bool) (l : list A) (c : A) :
  List.find f l = Some c →
  ∃ i, l !! i = Some c ∧ f c = true ∧
       ∀ j c', (j < i)%nat → l !! j = Some c' → f c' = false.
Proof.
  induction l as [|a l IH]; simpl; [discriminate|].
  destruct (f a) eqn:Hfa.
  - intros [= ->]. exists 0%nat. repeat split; [done|]. intros j c' Hj. lia.
  - intros H. destruct (IH H) as (i & Hi & Hc & Hbefore).
    exists (S i). repeat split; [done..|].
    intros [|j] c' Hj; simpl; [by intros [= <-]|].
    apply Hbefore. lia.
Qed.

Lemma find_none_all {A} (f : A → bool) (l : list A) :
  List.find f l = None → ∀ c, c ∈ l → f c = false.
Proof.
  induction l as [|a l IH]; simpl.
  - intros _ c Hc. by apply elem_of_nil in Hc.
  - destruct (f a) eqn:Hfa; [discriminate|]. intros H c Hc.
    apply elem_of_cons in Hc as [->|Hc]; auto.
Qed.

Lemma palette_truthy c : c ∈ userColors → truthy (JStr c) = true.
Proof.
  intros Hc. unfold userColors in Hc.
  repeat (apply elem_of_cons in Hc as [->|Hc]; [reflexivity|]).
  by apply elem_of_nil in Hc.
Qed.

(** [getAvailableColor] implements the palette rule. *)
Lemma getAvailableColor_rule (room : Room) :
  first_unused_or_first (color <$> JSMap.values (users room))
    (getAvailableColor room).
Proof.
  unfold getAvailableColor, first_unused_or_first.
  set (used := color <$> JSMap.values (users room)).
  destruct (List.find _ userColors) as [c|] eqn:Hfind.
  - left. apply find_first in Hfind as (i & Hi & Hc & Hbefore).
    exists i. cbn [or_else]. rewrite palette_truthy
      by (eapply list_elem_of_lookup_2; exact Hi).
    split; [done|]. split.
    + apply negb_true_iff, bool_decide_eq_false in Hc. exact Hc.
    + intros j c' Hj Hc'. specialize (Hbefore j c' Hj Hc').
      apply negb_false_iff, bool_decide_eq_true in Hbefore. exact Hbefore.
  - right. split; [|reflexivity].
    intros c' Hc'. pose proof (find_none_all _ _ Hfind c' Hc') as H.
    apply negb_false_iff, bool_decide_eq_true in H. exact H.
Qed.

(** What a join that is let in does to the state. *)
Lemma join_room_accepted st sid roomId username room :
  JSMap.get roomId (rooms st) = Some room →
  (JSMap.size (users room) < 10)%nat →
  let user := new_user sid username room in
  let room' := with_users (JSMap.set sid user (users room)) room in
  join_room sid roomId username st
  = (socket_join sid roomId
       (with_rooms (JSMap.set roomId room' (rooms st)) st),
     [ Emit sid (room_joined roomId user (JSMap.values (users room'))
                   (canvasState room));
       EmitTo roomId sid (user_joined user) ]).
Proof.
  intros Hget Hsize. unfold join_room. rewrite Hget.
  destruct (decide (10 ≤ JSMap.size (users room))%nat); [lia|done].
Qed.

Lemma create_room_picked st sid username draws now roomId :
  pick_room_id draws (rooms st) = Some roomId →
  let user := new_user sid username
                {| room_id := roomId; users := JSMap.empty;
                   canvasState := []; lastUpdate := now |} in
  let room := {| room_id := roomId; users := JSMap.set sid user JSMap.empty;
                 canvasState := []; lastUpdate := now |} in
  create_room sid username draws now st
  = Some (socket_join sid roomId
            (with_rooms (JSMap.set roomId room (rooms st)) st),
          [Emit sid (room_created roomId user)]).
Proof. intros Hpick. unfold create_room. by rewrite Hpick. Qed.

Lemma pick_room_id_fresh draws rs roomId :
  pick_room_id draws rs = Some roomId → JSMap.get roomId rs = None.
Proof.
  induction draws as [|d ds IH]; simpl; [discriminate|].
  destruct (JSMap.has d rs) eqn:Hhas; [done|].
  intros [= <-]. by apply has_false.
Qed.

(** The id loop of [create_room] ends as soon as [generateRoomId] yields an
    id that is not taken. *)
Lemma pick_room_id_ends draws rs d :
  d ∈ draws → JSMap.get d rs = None → is_Some (pick_room_id draws rs).
Proof.
  intros Hin Hfree. induction draws as [|d0 ds IH]; simpl.
  - by apply elem_of_nil in Hin.
  - destruct (JSMap.has d0 rs) eqn:Hhas; [|eauto].
    apply elem_of_cons in Hin as [->|Hin]; [|auto].
    apply has_true in Hhas. rewrite Hfree in Hhas. by destruct Hhas.
Qed.

(** C8.  On every join that is let in, the new participant's colour is the
    first palette entry that no participant of the room uses at that moment,
    or the first palette entry when all eight are used; on every room
    creation the room starts empty, so the creator gets the first entry;
    and a creation does complete once an unused room id is drawn. *)
Theorem new_participant_color :
  (∀ st sid roomId username room,
      JSMap.get roomId (rooms st) = Some room →
      (JSMap.size (users room) < 10)%nat →
      ∃ room' user,
        JSMap.get roomId (rooms (join_room sid roomId username st).1)
        = Some room' ∧
        JSMap.get sid (users room') = Some user ∧
        first_unused_or_first (color <$> JSMap.values (users room))
          (color user)) ∧
  (∀ st sid username draws now st' out,
      create_room sid username draws now st = Some (st', out) →
      ∃ roomId room' user,
        out = [Emit sid (room_created roomId user)] ∧
        JSMap.get roomId (rooms st') = Some room' ∧
        JSMap.get sid (users room') = Some user ∧
        JSMap.size (users room') = 1%nat ∧
        first_unused_or_first [] (color user) ∧
        userColors !! 0%nat = Some (color user)) ∧
  (∀ st sid username draws now d,
      d ∈ draws → JSMap.get d (rooms st) = None →
      is_Some (create_room sid username draws now st)) ∧
  length userColors = 8%nat.
Proof.
  split; [|split; [|split; [|reflexivity]]]; cycle 2.
  { intros st sid username draws now d Hin Hfree.
    destruct (pick_room_id_ends draws (rooms st) d Hin Hfree) as [r Hr].
    rewrite (create_room_picked _ _ _ _ _ _ Hr). eauto. }
  - intros st sid roomId username room Hget Hsize.
    rewrite (join_room_accepted _ _ _ _ room) by done. simpl.
    eexists _, _. rewrite get_set_eq. split; [reflexivity|]. simpl.
    rewrite get_set_eq. split; [reflexivity|]. apply getAvailableColor_rule.
  - intros st sid username draws now st' out Hcreate.
    destruct (pick_room_id draws (rooms st)) as [roomId|] eqn:Hpick;
      [|unfold create_room in Hcreate; by rewrite Hpick in Hcreate].
    rewrite (create_room_picked _ _ _ _ _ _ Hpick) in Hcreate.
    injection Hcreate as <- <-. eexists roomId, _, _.
    split; [reflexivity|]. simpl. rewrite get_set_eq.
    split; [reflexivity|]. cbn [users]. rewrite get_set_eq.
    split; [reflexivity|].
    split; [reflexivity|]. split; [|reflexivity].
    apply (getAvailableColor_rule
             {| room_id := roomId; users := JSMap.empty;
                canvasState := []; lastUpdate := now |}).
Qed.

Lemma new_participant_color_witness :
  let st := state_after alice_and_bob in
  JSMap.get "ROOM01" (rooms st) = Some (the_room "ROOM01" st) ∧
  (JSMap.size (users (the_room "ROOM01" st)) < 10)%nat ∧
  ∃ room' user,
    JSMap.get "ROOM01" (rooms (join_room "c" "ROOM01" "Carol" st).1)
    = Some room' ∧
    JSMap.get "c" (users room') = Some user ∧
    first_unused_or_first
      (color <$> JSMap.values (users (the_room "ROOM01" st))) (color user).
Proof.
  assert (Hget : JSMap.get "ROOM01" (rooms (state_after alice_and_bob))
                 = Some (the_room "ROOM01" (state_after alice_and_bob)))
    by (vm_compute; reflexivity).
  assert (Hsize : (JSMap.size (users (the_room "ROOM01"
                     (state_after alice_and_bob))) < 10)%nat)
    by (vm_compute; lia).
  split; [exact Hget|]. split; [exact Hsize|].
  exact (proj1 new_participant_color (state_after alice_and_bob) "c" "ROOM01"
           "Carol" _ Hget Hsize).
Defined.

(** *** Capacity *)

(** C2 as stated fails at nine participants when the joiner is one of them:
    the join is let in, its entry is overwritten, and the count stays nine. *)
Lemma rejoin_below_capacity_keeps_count :
  let st := state_after nine_in_room in
  let st' := (join_room "s1" "ROOM01" "again" st).1 in
  (JSMap.size ∘ users) <$> JSMap.get "ROOM01" (rooms st) = Some 9%nat ∧
  (∃ user all canvas,
      (join_room "s1" "ROOM01" "again" st).2
      = [ Emit "s1" (room_joined "ROOM01" user all canvas);
          EmitTo "ROOM01" "s1" (user_joined user) ]) ∧
  (JSMap.size ∘ users) <$> JSMap.get "ROOM01" (rooms st') = Some 9%nat.
Proof.
  split; [vm_compute; reflexivity|]. split; [|vm_compute; reflexivity].
  eexists _, _, _. vm_compute. reflexivity.
Qed.

(** C2, amended.  A join to a room that holds ten participants changes
    nothing and answers the requester alone with "Room is full".  A join to
    a room that holds nine, by a connection that is not one of them, is let
    in and brings the count to exactly ten. *)
Theorem join_at_capacity (st : State) (sid roomId username : string)
  (room : Room) :
  JSMap.get roomId (rooms st) = Some room →
  (JSMap.size (users room) = 10%nat →
     join_room sid roomId username st
     = (st, [Emit sid (room_error "Room is full")]) ∧
     recipients st (Emit sid (room_error "Room is full")) = {[sid]}) ∧
  (JSMap.size (users room) = 9%nat →
   JSMap.get sid (users room) = None →
     ∃ room' user all,
       JSMap.get roomId (rooms (join_room sid roomId username st).1)
       = Some room' ∧
       JSMap.size (users room') = 10%nat ∧
       JSMap.get sid (users room') = Some user ∧
       (∀ s, s ≠ sid → JSMap.get s (users room') = JSMap.get s (users room)) ∧
       (join_room sid roomId username st).2
       = [ Emit sid (room_joined roomId user all (canvasState room));
           EmitTo roomId sid (user_joined user) ]).
Proof.
  intros Hget. split.
  - intros Hsize. split; [|done]. unfold join_room. rewrite Hget.
    destruct (decide (10 ≤ JSMap.size (users room))%nat); [done|lia].
  - intros Hsize Hnew. rewrite (join_room_accepted _ _ _ _ room) by (done || lia).
    simpl.
    eexists _, _, _. rewrite get_set_eq. split; [reflexivity|]. simpl.
    rewrite size_set_absent by done. split; [lia|].
    rewrite get_set_eq. split; [reflexivity|].
    split; [|reflexivity]. intros s Hs. by apply get_set_ne.
Qed.

Lemma join_at_capacity_witness :
  let st := state_after nine_in_room in
  JSMap.get "ROOM01" (rooms st) = Some (the_room "ROOM01" st) ∧
  JSMap.size (users (the_room "ROOM01" st)) = 9%nat ∧
  JSMap.get "s10" (users (the_room "ROOM01" st)) = None ∧
  ∃ room', JSMap.get "ROOM01" (rooms (join_room "s10" "ROOM01" "late" st).1)
           = Some room' ∧
           JSMap.size (users room') = 10%nat.
Proof.
  assert (Hget : JSMap.get "ROOM01" (rooms (state_after nine_in_room))
                 = Some (the_room "ROOM01" (state_after nine_in_room)))
    by (vm_compute; reflexivity).
  assert (Hsize : JSMap.size (users (the_room "ROOM01"
                     (state_after nine_in_room))) = 9%nat)
    by (vm_compute; reflexivity).
  assert (Hnew : JSMap.get "s10" (users (the_room "ROOM01"
                     (state_after nine_in_room))) = None)
    by (vm_compute; reflexivity).
  split; [exact Hget|]. split; [exact Hsize|]. split; [exact Hnew|].
  destruct (proj2 (join_at_capacity (state_after nine_in_room) "s10" "ROOM01"
                     "late" _ Hget) Hsize Hnew)
    as (room' & user & all & H1 & H2 & _).
  exists room'. split; [exact H1|exact H2].
Defined.

(** *** Canvas replacement *)

Lemma canvas_update_found st sid roomId elements timestamp room :
  JSMap.get roomId (rooms st) = Some room →
  canvas_update sid roomId elements timestamp st
  = (with_rooms
       (JSMap.set roomId
          {| room_id := room_id room; users := users room;
             canvasState := elements; lastUpdate := timestamp |} (rooms st))
       st,
     [EmitTo roomId sid (canvas_updated elements sid timestamp)]).
Proof. intros Hget. unfold canvas_update. by rewrite Hget. Qed.

Lemma canvas_update_missing st sid roomId elements timestamp :
  JSMap.get roomId (rooms st) = None →
  canvas_update sid roomId elements timestamp st = (st, []).
Proof. intros Hget. unfold canvas_update. by rewrite Hget. Qed.

(** C4.  A [canvas_update] naming an existing room stores the message's
    [elements] and [timestamp] whatever the room held before, older or
    newer, and touches nothing else; and sending the same elements and
    timestamp again, by any connection, leaves the state exactly as the
    first message left it. *)
Theorem canvas_update_last_writer_wins (st : State) (sid sid' roomId : string)
  (elements : list jsval) (timestamp : number) (room : Room) :
  JSMap.get roomId (rooms st) = Some room →
  let st1 := (canvas_update sid roomId elements timestamp st).1 in
  (∃ room1,
      JSMap.get roomId (rooms st1) = Some room1 ∧
      canvasState room1 = elements ∧
      lastUpdate room1 = timestamp ∧
      users room1 = users room ∧
      room_id room1 = room_id room) ∧
  (∀ r, r ≠ roomId → JSMap.get r (rooms st1) = JSMap.get r (rooms st)) ∧
  sockets st1 = sockets st ∧
  (canvas_update sid' roomId elements timestamp st1).1 = st1.
Proof.
  intros Hget st1. subst st1.
  rewrite (canvas_update_found _ sid _ _ _ _ Hget). cbn [fst].
  set (room1 := {| room_id := room_id room; users := users room;
                   canvasState := elements; lastUpdate := timestamp |}).
  assert (Hget1 : JSMap.get roomId
            (rooms (with_rooms (JSMap.set roomId room1 (rooms st)) st))
          = Some room1) by apply get_set_eq.
  split; [by exists room1|]. split; [|split; [done|]].
  - intros r Hr. by apply get_set_ne.
  - rewrite (canvas_update_found _ sid' _ _ _ _ Hget1). cbn [fst].
    unfold with_rooms. cbn [rooms sockets closed room_id users room1].
    by rewrite set_set.
Qed.

Lemma canvas_update_last_writer_wins_witness :
  let st := state_after alice_and_bob in
  JSMap.get "ROOM01" (rooms st) = Some (the_room "ROOM01" st) ∧
  (canvas_update "a" "ROOM01" [JStr "line"] 7%Q
     (canvas_update "b" "ROOM01" [JStr "line"] 7%Q st).1).1
  = (canvas_update "b" "ROOM01" [JStr "line"] 7%Q st).1.
Proof.
  assert (Hget : JSMap.get "ROOM01" (rooms (state_after alice_and_bob))
                 = Some (the_room "ROOM01" (state_after alice_and_bob)))
    by (vm_compute; reflexivity).
  split; [exact Hget|].
  exact (proj2 (proj2 (proj2
    (canvas_update_last_writer_wins (state_after alice_and_bob) "b" "a"
       "ROOM01" [JStr "line"] 7%Q _ Hget)))).
Defined.

(** *** The shape of each handler's result *)

Lemma join_room_cases st sid roomId username :
  (∃ reason, join_room sid roomId username st
             = (st, [Emit sid (room_error reason)])) ∨
  (∃ room, JSMap.get roomId (rooms st) = Some room ∧
           (JSMap.size (users room) < 10)%nat).
Proof.
  unfold join_room. destruct (JSMap.get roomId (rooms st)) as [room|];
    [|left; eauto].
  destruct (decide (10 ≤ JSMap.size (users room))%nat); [left; eauto|].
  right. exists room. split; [done|lia].
Qed.

Lemma on_user_cases st sid roomId change notice :
  on_user sid roomId change notice st = (st, []) ∨
  (∃ room user,
      JSMap.get roomId (rooms st) = Some room ∧
      JSMap.get sid (users room) = Some user ∧
      on_user sid roomId change notice st
      = (with_rooms
           (JSMap.set roomId
              (with_users (JSMap.set sid (change user) (users room)) room)
              (rooms st)) st,
         [EmitTo roomId sid (notice (change user))])).
Proof.
  unfold on_user. destruct (JSMap.get roomId (rooms st)) as [room|];
    [|by left].
  destruct (JSMap.get sid (users room)) as [user|] eqn:Huser; [|by left].
  right. by exists room, user.
Qed.

Lemma on_user_ignored st sid roomId change notice :
  (∀ room, JSMap.get roomId (rooms st) = Some room →
           JSMap.get sid (users room) = None) →
  on_user sid roomId change notice st = (st, []).
Proof.
  intros H. unfold on_user.
  destruct (JSMap.get roomId (rooms st)) as [room|]; [|done].
  by rewrite (H room eq_refl).
Qed.

(** The loop of the [disconnect] handler touches at most one room: the
    first one, in iteration order, that lists the socket.  That room loses
    the socket, and is dropped if it had nobody else. *)
Lemma disconnect_loop_rooms sid entries rs :
  (∀ k room, (k, room) ∈ entries → JSMap.get k rs = Some room) →
  ∀ r room',
    JSMap.get r (disconnect_loop sid entries rs).1 = Some room' →
    ∃ room,
      JSMap.get r rs = Some room ∧
      (room' = room ∨
       (room' = with_users (JSMap.delete sid (users room)) room ∧
        JSMap.size (users room') ≠ 0%nat)).
Proof.
  induction entries as [|[k room0] entries IH]; intros Hentries r room'.
  - simpl. eauto.
  - assert (Hk : JSMap.get k rs = Some room0)
      by (apply Hentries, list_elem_of_here).
    simpl. destruct (JSMap.get sid (users room0)) as [user|].
    + destruct (decide _) as [Hzero|Hnonzero]; cbn [fst].
      * destruct (decide (k = r)) as [->|Hne].
        -- by rewrite get_delete_eq.
        -- rewrite get_delete_ne by done. eauto.
      * destruct (decide (k = r)) as [->|Hne].
        -- rewrite get_set_eq. intros [= <-]. exists room0.
           split; [done|]. right. done.
        -- rewrite get_set_ne by done. eauto.
    + apply IH. intros k' room1 Hin. apply Hentries.
      by apply list_elem_of_further.
Qed.

Lemma disconnect_loop_keys sid entries rs :
  NoDup (JSMap.keys rs) →
  NoDup (JSMap.keys (disconnect_loop sid entries rs).1).
Proof.
  intros Hnd. induction entries as [|[k room0] entries IH]; simpl; [done|].
  destruct (JSMap.get sid (users room0)); [|done].
  destruct (decide _); cbn [fst].
  - by apply NoDup_keys_delete.
  - by apply NoDup_keys_set.
Qed.

Lemma disconnect_result sid st :
  disconnect sid st
  = ({| rooms := (disconnect_loop sid (rooms st) (rooms st)).1;
        sockets := delete sid (sockets st);
        closed := {[sid]} ∪ closed st |},
     (disconnect_loop sid (rooms st) (rooms st)).2).
Proof.
  unfold disconnect. cbn [rooms].
  by destruct (disconnect_loop sid (rooms st) (rooms st)).
Qed.

(** *** What every reachable state satisfies *)

Lemma participant_set_room st st' r0 room' r s :
  rooms st' = JSMap.set r0 room' (rooms st) →
  participant st' r s ↔
  (r = r0 ∧ is_Some (JSMap.get s (users room'))) ∨
  (r ≠ r0 ∧ participant st r s).
Proof.
  intros Hrooms. unfold participant. rewrite Hrooms.
  destruct (decide (r = r0)) as [->|Hne].
  - rewrite get_set_eq. split.
    + intros (room & [= <-] & Hs). by left.
    + intros [[_ Hs]|[? _]]; [eauto|done].
  - rewrite get_set_ne by done. split.
    + intros H. by right.
    + intros [[? _]|[_ H]]; done.
Qed.

Lemma invariant_init : invariant init.
Proof.
  split; simpl.
  - apply NoDup_nil_2.
  - intros r room [=].
  - intros r s (room & [=] & _).
  - intros r s chans (room & [=] & _).
Qed.

(** Replacing one room, possibly while the sender enters its channel. *)
Lemma invariant_set_room st st' sid r0 room' :
  invariant st →
  rooms st' = JSMap.set r0 room' (rooms st) →
  closed st' = closed st →
  (0 < JSMap.size (users room'))%nat →
  (sockets st' = sockets st ∧
   ∀ s, is_Some (JSMap.get s (users room')) → participant st r0 s) ∨
  (sockets st' = alter (λ chans, {[r0]} ∪ chans) sid (sockets st) ∧
   sid ∈ dom (sockets st) ∧
   ∀ s, is_Some (JSMap.get s (users room')) → s = sid ∨ participant st r0 s) →
  invariant st'.
Proof.
  intros [Hkeys Hocc Hknown Hchan] Hrooms Hclosed Hsize Hcases.
  assert (Hdom : dom (sockets st') = dom (sockets st)).
  { destruct Hcases as [[-> _]|[-> _]]; [done|apply dom_alter_L]. }
  assert (Hkeys' : NoDup (JSMap.keys (rooms st'))).
  { rewrite Hrooms. by apply NoDup_keys_set. }
  assert (Hocc' : ∀ r room, JSMap.get r (rooms st') = Some room →
                            (0 < JSMap.size (users room))%nat).
  { intros r room. rewrite Hrooms. destruct (decide (r0 = r)) as [->|Hne].
    - rewrite get_set_eq. by intros [= <-].
    - rewrite get_set_ne by done. apply Hocc. }
  destruct Hcases as [[Hsock Hus]|(Hsock & Hsid & Hus)].
  - assert (Hold : ∀ r s, participant st' r s → participant st r s).
    { intros r s Hp. apply (participant_set_room _ _ _ _ _ _ Hrooms) in Hp.
      destruct Hp as [[-> Hs]|[_ Hp]]; auto. }
    split; [done..| |].
    + intros r s Hp. rewrite Hdom, Hclosed. eauto.
    + intros r s chans Hp. rewrite Hsock. eauto.
  - assert (Hold : ∀ r s, participant st' r s →
              participant st r s ∨ (r = r0 ∧ s = sid)).
    { intros r s Hp. apply (participant_set_room _ _ _ _ _ _ Hrooms) in Hp.
      destruct Hp as [[-> Hs]|[_ Hp]]; [|by left].
      destruct (Hus s Hs) as [->|Hp]; [by right|by left]. }
    split; [done..| |].
    + intros r s Hp. rewrite Hdom, Hclosed.
      destruct (Hold r s Hp) as [Hp'|[_ ->]]; [eauto|by left].
    + intros r s chans Hp Hlook. rewrite Hsock in Hlook.
      destruct (decide (sid = s)) as [->|Hne].
      * rewrite lookup_alter_eq in Hlook.
        destruct (sockets st !! s) as [chans0|] eqn:Hs0; [|discriminate].
        injection Hlook as <-.
        destruct (Hold r s Hp) as [Hp'|[Hr _]].
        -- apply elem_of_union_r. eauto.
        -- by apply elem_of_union_l, elem_of_singleton.
      * rewrite lookup_alter_ne in Hlook by done.
        destruct (Hold r s Hp) as [Hp'|[_ ->]]; [eauto|done].
Qed.

Lemma invariant_connection sid st :
  invariant st → sid ∉ dom (sockets st) → sid ∉ closed st →
  invariant (connection sid st).
Proof.
  intros [Hkeys Hocc Hknown Hchan] Hnew Hfresh. split; simpl; [done..| |].
  - intros r s Hp. rewrite dom_insert_L.
    destruct (Hknown r s Hp); [left; set_solver|by right].
  - intros r s chans Hp Hlook.
    apply lookup_insert_Some in Hlook as [[<- _]|[_ Hlook]]; [|eauto].
    destruct (Hknown r sid Hp); done.
Qed.

Lemma invariant_disconnect sid st :
  invariant st → invariant (disconnect sid st).1.
Proof.
  intros [Hkeys Hocc Hknown Hchan]. rewrite disconnect_result. cbn [fst].
  assert (Hentries : ∀ k room, (k, room) ∈ rooms st →
                               JSMap.get k (rooms st) = Some room)
    by (intros k room; by apply NoDup_keys_get).
  pose proof (disconnect_loop_rooms sid (rooms st) (rooms st) Hentries) as Hloop.
  assert (Hold : ∀ r s,
            participant
              {| rooms := (disconnect_loop sid (rooms st) (rooms st)).1;
                 sockets := delete sid (sockets st);
                 closed := {[sid]} ∪ closed st |} r s →
            participant st r s).
  { intros r s (room' & Hget & Hs). cbn [rooms] in Hget.
    destruct (Hloop r room' Hget) as (room & Hroom & [->|[-> _]]).
    - by exists room.
    - exists room. split; [done|]. cbn [users with_users] in Hs.
      destruct (decide (sid = s)) as [->|Hne].
      + rewrite get_delete_eq in Hs. by destruct Hs.
      + by rewrite get_delete_ne in Hs. }
  split; cbn [rooms sockets closed].
  - by apply disconnect_loop_keys.
  - intros r room' Hget.
    destruct (Hloop r room' Hget) as (room & Hroom & [->|[_ Hsz]]);
      [eauto|lia].
  - intros r s Hp. apply Hold in Hp. rewrite dom_delete_L.
    destruct (decide (s = sid)) as [->|Hne]; [right; set_solver|].
    destruct (Hknown r s Hp); [left|right]; set_solver.
  - intros r s chans Hp Hlook. apply Hold in Hp.
    apply lookup_delete_Some in Hlook as [_ Hlook]. eauto.
Qed.

Lemma step_invariant e st st' out :
  invariant st → step e st = Some (st', out) → invariant st'.
Proof.
  intros Hinv Hstep. pose proof Hinv as [Hkeys Hocc Hknown Hchan].
  destruct e as [sid|sid username draws now|sid roomId username
                |sid roomId elements timestamp|sid roomId x y|sid roomId
                |sid roomId|sid roomId|sid]; cbn [step sender] in Hstep.
  - destruct (decide _) as [|Hfresh]; [discriminate|].
    injection Hstep as <- <-. apply invariant_connection; [done|..];
      intros ?; apply Hfresh; auto.
  - destruct (decide _) as [Hopen|]; [|discriminate].
    destruct (pick_room_id draws (rooms st)) as [roomId|] eqn:Hpick;
      [|unfold create_room in Hstep; by rewrite Hpick in Hstep].
    rewrite (create_room_picked _ _ _ _ _ _ Hpick) in Hstep.
    injection Hstep as <- <-.
    eapply (invariant_set_room st _ sid roomId); [done|reflexivity..| |].
    + cbn [users]. unfold JSMap.size. simpl. lia.
    + right. split; [reflexivity|]. split; [done|].
      intros s Hs. left. cbn [users] in Hs.
      destruct (decide (sid = s)) as [->|Hne]; [done|].
      rewrite get_set_ne in Hs by done. by destruct Hs.
  - destruct (decide _) as [Hopen|]; [|discriminate].
    injection Hstep as Hstep.
    destruct (join_room_cases st sid roomId username)
      as [[reason Hrej]|(room & Hget & Hsize)].
    + rewrite Hrej in Hstep. by injection Hstep as <- <-.
    + rewrite (join_room_accepted _ _ _ _ room) in Hstep by done.
      injection Hstep as <- <-.
      eapply (invariant_set_room st _ sid roomId); [done|reflexivity..| |].
      * cbn [users with_users]. eapply size_pos_of_get, get_set_eq.
      * right. split; [reflexivity|]. split; [done|].
        intros s Hs. cbn [users with_users] in Hs.
        destruct (decide (sid = s)) as [->|Hne]; [by left|right].
        rewrite get_set_ne in Hs by done. by exists room.
  - destruct (decide _) as [Hopen|]; [|discriminate].
    injection Hstep as Hstep.
    destruct (JSMap.get roomId (rooms st)) as [room|] eqn:Hget.
    + rewrite (canvas_update_found _ _ _ _ _ _ Hget) in Hstep.
      injection Hstep as <- <-.
      eapply (invariant_set_room st _ sid roomId); [done|reflexivity..| |].
      * cbn [users]. eauto.
      * left. split; [done|]. intros s Hs. by exists room.
    + rewrite canvas_update_missing in Hstep by done.
      by injection Hstep as <- <-.
  - destruct (decide _) as [Hopen|]; [|discriminate].
    injection Hstep as Hstep. unfold cursor_move in Hstep.
    destruct (on_user_cases st sid roomId (with_cursor (Some (x, y)))
                (λ user, cursor_updated sid (cursor user) (color user)
                           (name user) (isDrawing user)))
      as [Hsame|(room & user & Hget & Huser & Hres)];
      rewrite ?Hsame, ?Hres in Hstep; injection Hstep as <- <-; [done|].
    eapply (invariant_set_room st _ sid roomId); [done|reflexivity..| |].
    + cbn [users with_users]. eapply size_pos_of_get, get_set_eq.
    + left. split; [done|]. intros s Hs. exists room. split; [done|].
      cbn [users with_users] in Hs.
      destruct (decide (sid = s)) as [->|Hne]; [by rewrite Huser|].
      by rewrite get_set_ne in Hs.
  - destruct (decide _) as [Hopen|]; [|discriminate].
    injection Hstep as Hstep. unfold drawing_start in Hstep.
    destruct (on_user_cases st sid roomId (with_isDrawing true)
                (λ user, user_drawing_start sid (color user) (name user)))
      as [Hsame|(room & user & Hget & Huser & Hres)];
      rewrite ?Hsame, ?Hres in Hstep; injection Hstep as <- <-; [done|].
    eapply (invariant_set_room st _ sid roomId); [done|reflexivity..| |].
    + cbn [users with_users]. eapply size_pos_of_get, get_set_eq.
    + left. split; [done|]. intros s Hs. exists room. split; [done|].
      cbn [users with_users] in Hs.
      destruct (decide (sid = s)) as [->|Hne]; [by rewrite Huser|].
      by rewrite get_set_ne in Hs.
  - destruct (decide _) as [Hopen|]; [|discriminate].
    injection Hstep as Hstep. unfold drawing_end in Hstep.
    destruct (on_user_cases st sid roomId (with_isDrawing false)
                (λ _, user_drawing_end sid))
      as [Hsame|(room & user & Hget & Huser & Hres)];
      rewrite ?Hsame, ?Hres in Hstep; injection Hstep as <- <-; [done|].
    eapply (invariant_set_room st _ sid roomId); [done|reflexivity..| |].
    + cbn [users with_users]. eapply size_pos_of_get, get_set_eq.
    + left. split; [done|]. intros s Hs. exists room. split; [done|].
      cbn [users with_users] in Hs.
      destruct (decide (sid = s)) as [->|Hne]; [by rewrite Huser|].
      by rewrite get_set_ne in Hs.
  - destruct (decide _) as [Hopen|]; [|discriminate].
    injection Hstep as Hstep. unfold request_sync in Hstep.
    destruct (JSMap.get roomId (rooms st)); by injection Hstep as <- <-.
  - destruct (decide _) as [Hopen|]; [|discriminate].
    injection Hstep as Hstep.
    replace st' with (disconnect sid st).1 by (by rewrite Hstep).
    by apply invariant_disconnect.
Qed.

Lemma run_invariant es st st' out :
  invariant st → run es st = Some (st', out) → invariant st'.
Proof.
  revert st out. induction es as [|e es IH]; intros st out Hinv; simpl.
  - by intros [= <- _].
  - destruct (step e st) as [[st1 out1]|] eqn:Hstep; [|discriminate].
    destruct (run es st1) as [[st2 out2]|] eqn:Hrun; [|discriminate].
    intros [= <- _]. eapply IH; [|exact Hrun].
    by eapply step_invariant.
Qed.

Lemma reachable_invariant st : reachable st → invariant st.
Proof.
  intros (es & out & Hrun). eapply run_invariant; [apply invariant_init|done].
Qed.

(** *** Who hears what *)

Lemma elem_of_recipients_EmitTo st r sid m s :
  s ∈ recipients st (EmitTo r sid m) ↔
  ∃ chans, sockets st !! s = Some chans ∧ r ∈ chans ∧ s ≠ sid.
Proof.
  unfold recipients. rewrite elem_of_dom. unfold is_Some.
  setoid_rewrite map_lookup_filter_Some. simpl. naive_solver.
Qed.

(** In a reachable state every participant whose socket is open is in the
    room's channel, so a [socket.to(roomId)] broadcast reaches it. *)
Lemma open_participant_hears st r sid m s :
  reachable st → participant st r s → s ∈ dom (sockets st) → s ≠ sid →
  s ∈ recipients st (EmitTo r sid m).
Proof.
  intros Hreach Hp Hopen Hne. apply reachable_invariant in Hreach.
  apply elem_of_dom in Hopen as [chans Hchans].
  apply elem_of_recipients_EmitTo. exists chans.
  split; [done|]. split; [|done]. by eapply inv_channel.
Qed.

(** C9 as stated fails for the single global canvas: a new connection is
    sent the stored objects and nothing else (there is no participant list
    to send), and the clients already connected are told nothing. *)
Lemma connection_sends_no_roster_or_notice :
  let st := (Gateway.run [Gateway.Connect "alice";
                          Gateway.ObjectAdded "alice" Gateway.rect_r1]
               Gateway.init).1 in
  (Gateway.handleConnection "bob" st).2
  = [Gateway.Emit "bob" "object:sync"
       (JObj {[ "objects" := JArr [JObj (Gateway.to_obj Gateway.rect_r1)] ]})] ∧
  "alice" ∈ Gateway.clients (Gateway.handleConnection "bob" st).1 ∧
  ∀ e, e ∈ (Gateway.handleConnection "bob" st).2 →
       "alice" ∉ Gateway.recipients (Gateway.handleConnection "bob" st).1 e.
Proof.
  split; [vm_compute; reflexivity|]. split; [vm_compute; reflexivity|].
  intros e He. cbn [Gateway.handleConnection snd] in He.
  apply list_elem_of_singleton in He as ->. cbn [Gateway.recipients].
  intros H. apply elem_of_singleton in H. discriminate.
Qed.

(** C9, amended.  In the room server, a join that is let in answers the
    joiner alone, first, with [room_joined]: the room's canvas as stored at
    that moment and the list of all its participants, the joiner included;
    every other participant whose socket is open is sent [user_joined]
    instead.  In the gateway, a new connection is sent, alone, one
    [object:sync] listing exactly the stored objects; the gateway keeps no
    participant list and tells the other clients nothing. *)
Theorem join_snapshot (st : State) (sid roomId username : string)
  (room : Room) :
  reachable st →
  JSMap.get roomId (rooms st) = Some room →
  (JSMap.size (users room) < 10)%nat →
  let st' := (join_room sid roomId username st).1 in
  (∃ user room',
      (join_room sid roomId username st).2
      = [ Emit sid (room_joined roomId user (JSMap.values (users room'))
                      (canvasState room));
          EmitTo roomId sid (user_joined user) ] ∧
      JSMap.get roomId (rooms st') = Some room' ∧
      canvasState room' = canvasState room ∧
      JSMap.get sid (users room') = Some user ∧
      user ∈ JSMap.values (users room') ∧
      user_id user = sid ∧ name user = username ∧
      (∀ s u, s ≠ sid → JSMap.get s (users room) = Some u →
              JSMap.get s (users room') = Some u ∧
              u ∈ JSMap.values (users room')) ∧
      recipients st' (Emit sid (room_joined roomId user
                                  (JSMap.values (users room'))
                                  (canvasState room))) = {[sid]} ∧
      (∀ s, s ≠ sid → participant st roomId s → s ∈ dom (sockets st) →
            s ∈ recipients st' (EmitTo roomId sid (user_joined user))) ∧
      sid ∉ recipients st' (EmitTo roomId sid (user_joined user))) ∧
  (∀ gst client,
      let gst' := (Gateway.handleConnection client gst).1 in
      Gateway.objects gst' = Gateway.objects gst ∧
      (Gateway.handleConnection client gst).2
      = [Gateway.Emit client "object:sync"
           (JObj {[ "objects" :=
                      JArr (JObj <$> Gateway.store_values
                                       (Gateway.objects gst)) ]})] ∧
      Gateway.recipients gst'
        (Gateway.Emit client "object:sync"
           (JObj {[ "objects" :=
                      JArr (JObj <$> Gateway.store_values
                                       (Gateway.objects gst)) ]}))
      = {[client]} ∧
      (∀ o, o ∈ Gateway.store_values (Gateway.objects gst) ↔
            ∃ k, Gateway.own (Gateway.objects gst) !! k = Some o)).
Proof.
  intros Hreach Hget Hsize st'. subst st'. split.
  - rewrite (join_room_accepted _ _ _ _ room) by done. cbn [fst snd].
    set (user := new_user sid username room).
    set (room' := with_users (JSMap.set sid user (users room)) room).
    exists user, room'.
    assert (Hget' : JSMap.get roomId
              (rooms (socket_join sid roomId
                        (with_rooms (JSMap.set roomId room' (rooms st)) st)))
            = Some room') by apply get_set_eq.
    assert (Huser : JSMap.get sid (users room') = Some user)
      by apply get_set_eq.
    split; [done|]. split; [done|]. split; [done|]. split; [done|].
    split; [by eapply get_Some_values|]. split; [done|]. split; [done|].
    split; [|split; [done|split]].
    + intros s u Hs Hu.
      assert (Hu' : JSMap.get s (users room') = Some u).
      { subst room'. cbn [users with_users]. by rewrite get_set_ne. }
      split; [done|]. by eapply get_Some_values.
    + intros s Hs Hp Hopen. apply elem_of_recipients_EmitTo.
      apply elem_of_dom in Hopen as [chans Hchans]. exists chans.
      cbn [sockets socket_join with_rooms].
      rewrite lookup_alter_ne by done. split; [done|]. split; [|done].
      apply reachable_invariant in Hreach. by eapply inv_channel.
    + intros H. apply elem_of_recipients_EmitTo in H as (_ & _ & _ & H).
      done.
  - intros gst client.
    destruct (GatewayFacts.connection_sync client gst) as (H1 & _ & H2 & H3).
    done.
Qed.

Lemma join_snapshot_witness :
  let st := state_after alice_and_outsider in
  reachable st ∧
  JSMap.get "ROOM01" (rooms st) = Some (the_room "ROOM01" st) ∧
  (JSMap.size (users (the_room "ROOM01" st)) < 10)%nat ∧
  ∃ user,
    "a" ∈ recipients (join_room "c" "ROOM01" "Carol" st).1
            (EmitTo "ROOM01" "c" (user_joined user)).
Proof.
  assert (Hreach : reachable (state_after alice_and_outsider)).
  { exists alice_and_outsider. eexists. vm_compute. reflexivity. }
  assert (Hget : JSMap.get "ROOM01" (rooms (state_after alice_and_outsider))
                 = Some (the_room "ROOM01" (state_after alice_and_outsider)))
    by (vm_compute; reflexivity).
  assert (Hsize : (JSMap.size (users (the_room "ROOM01"
                     (state_after alice_and_outsider))) < 10)%nat)
    by (vm_compute; lia).
  split; [exact Hreach|]. split; [exact Hget|]. split; [exact Hsize|].
  destruct (proj1 (join_snapshot (state_after alice_and_outsider) "c"
                     "ROOM01" "Carol" _ Hreach Hget Hsize))
    as (user & room' & Hout & _ & _ & _ & _ & _ & _ & _ & _ & Hothers & _).
  exists user. apply Hothers.
  - discriminate.
  - exists (the_room "ROOM01" (state_after alice_and_outsider)).
    split; [exact Hget|]. vm_compute. eauto.
  - vm_compute. reflexivity.
Defined.

(** *** Presence events and what they leave alone *)

Lemma on_user_effect st sid roomId change notice room user :
  JSMap.get roomId (rooms st) = Some room →
  JSMap.get sid (users room) = Some user →
  let st' := (on_user sid roomId change notice st).1 in
  (∃ room',
      JSMap.get roomId (rooms st') = Some room' ∧
      JSMap.get sid (users room') = Some (change user) ∧
      (∀ s, s ≠ sid → JSMap.get s (users room') = JSMap.get s (users room)) ∧
      JSMap.size (users room') = JSMap.size (users room) ∧
      canvasState room' = canvasState room ∧
      lastUpdate room' = lastUpdate room ∧
      room_id room' = room_id room) ∧
  (∀ r, r ≠ roomId → JSMap.get r (rooms st') = JSMap.get r (rooms st)) ∧
  sockets st' = sockets st ∧ closed st' = closed st ∧
  (on_user sid roomId change notice st).2
  = [EmitTo roomId sid (notice (change user))].
Proof.
  intros Hget Huser. unfold on_user. rewrite Hget, Huser. cbn [fst snd].
  split; [|split; [|done]].
  - eexists. cbn [rooms with_rooms]. rewrite get_set_eq.
    split; [reflexivity|]. cbn [users with_users canvasState lastUpdate room_id].
    rewrite get_set_eq. split; [done|]. split; [|split; [|done]].
    + intros s Hs. by apply get_set_ne.
    + apply size_set_present. by rewrite Huser.
  - intros r Hr. cbn [rooms with_rooms]. by apply get_set_ne.
Qed.

(** C10 as stated fails: a participant who sends [join_room] for the room
    it is already in gets a fresh entry, with the new name and the next
    free colour. *)
Lemma rejoin_changes_name_and_color :
  let st := state_after alice_and_outsider in
  let st' := (join_room "a" "ROOM01" "Mallory" st).1 in
  (λ u, (user_id u, name u, color u)) <$>
    JSMap.get "a" (users (the_room "ROOM01" st))
  = Some ("a", "Alice", "#FF6B6B") ∧
  (λ u, (user_id u, name u, color u)) <$>
    JSMap.get "a" (users (the_room "ROOM01" st'))
  = Some ("a", "Mallory", "#4ECDC4").
Proof. split; vm_compute; reflexivity. Qed.

(** C10, amended.  From any reachable state: no event other than the
    participant's own [join_room] for the room it is in changes that
    participant's id, name or colour; [cursor_move] by a participant
    replaces its cursor and nothing else, anywhere; [drawing_start] and
    [drawing_end] replace its drawing flag and nothing else.  The room's
    canvas, its timestamp, the other participants and the other rooms are
    as before. *)
Theorem presence_frame (st : State) :
  reachable st →
  (∀ e st' out r room s u room' u',
      step e st = Some (st', out) →
      JSMap.get r (rooms st) = Some room →
      JSMap.get s (users room) = Some u →
      JSMap.get r (rooms st') = Some room' →
      JSMap.get s (users room') = Some u' →
      (∀ username, e ≠ JoinRoom s r username) →
      same_identity u u') ∧
  (∀ sid roomId x y room user,
      JSMap.get roomId (rooms st) = Some room →
      JSMap.get sid (users room) = Some user →
      let st' := (cursor_move sid roomId x y st).1 in
      (∃ room',
          JSMap.get roomId (rooms st') = Some room' ∧
          JSMap.get sid (users room')
          = Some {| user_id := user_id user; name := name user;
                    color := color user; cursor := Some (x, y);
                    isDrawing := isDrawing user |} ∧
          (∀ s, s ≠ sid →
                JSMap.get s (users room') = JSMap.get s (users room)) ∧
          canvasState room' = canvasState room ∧
          lastUpdate room' = lastUpdate room) ∧
      (∀ r, r ≠ roomId → JSMap.get r (rooms st') = JSMap.get r (rooms st))) ∧
  (∀ sid roomId (flag : bool) room user,
      JSMap.get roomId (rooms st) = Some room →
      JSMap.get sid (users room) = Some user →
      let st' := ((if flag then drawing_start else drawing_end)
                    sid roomId st).1 in
      (∃ room',
          JSMap.get roomId (rooms st') = Some room' ∧
          JSMap.get sid (users room')
          = Some {| user_id := user_id user; name := name user;
                    color := color user; cursor := cursor user;
                    isDrawing := flag |} ∧
          (∀ s, s ≠ sid →
                JSMap.get s (users room') = JSMap.get s (users room)) ∧
          canvasState room' = canvasState room ∧
          lastUpdate room' = lastUpdate room) ∧
      (∀ r, r ≠ roomId → JSMap.get r (rooms st') = JSMap.get r (rooms st))).
Proof.
  intros Hreach. split; [|split].
  - intros e st' out r room s u room' u' Hstep Hroom Hu Hroom' Hu' Hnot.
    assert (Hset : ∀ r0 room0 room0',
              JSMap.get r0 (rooms st) = Some room0 →
              rooms st' = JSMap.set r0 room0' (rooms st) →
              (r = r0 → ∀ v, JSMap.get s (users room0') = Some v →
                             same_identity u v) →
              same_identity u u').
    { intros r0 room0 room0' H0 Hrooms Hsame. rewrite Hrooms in Hroom'.
      destruct (decide (r0 = r)) as [->|Hne].
      - rewrite get_set_eq in Hroom'. injection Hroom' as <-. by eapply Hsame.
      - rewrite get_set_ne in Hroom' by done.
        rewrite Hroom in Hroom'. injection Hroom' as <-.
        rewrite Hu in Hu'. by injection Hu' as <-. }
    assert (Hsame_rooms : rooms st' = rooms st → same_identity u u').
    { intros Hrooms. rewrite Hrooms, Hroom in Hroom'. injection Hroom' as <-.
      rewrite Hu in Hu'. by injection Hu' as <-. }
    assert (Hon : ∀ sid roomId change notice,
              (∀ v, same_identity v (change v)) →
              Some (on_user sid roomId change notice st) = Some (st', out) →
              same_identity u u').
    { intros sid roomId change notice Hchange Hres. injection Hres as Hres.
      destruct (on_user_cases st sid roomId change notice)
        as [Hsame|(room0 & user0 & Hget0 & Huser0 & Hres0)].
      - rewrite Hsame in Hres. injection Hres as <- _. by apply Hsame_rooms.
      - rewrite Hres0 in Hres. injection Hres as <- _.
        eapply (Hset roomId room0); [done|reflexivity|].
        intros -> v Hv. cbn [users with_users] in Hv.
        rewrite Hroom in Hget0. injection Hget0 as <-.
        destruct (decide (sid = s)) as [->|Hne].
        + rewrite get_set_eq in Hv. injection Hv as <-.
          rewrite Hu in Huser0. injection Huser0 as <-. apply Hchange.
        + rewrite get_set_ne in Hv by done. rewrite Hu in Hv.
          by injection Hv as <-. }
    destruct e as [sid|sid username draws now|sid roomId username
                  |sid roomId elements timestamp|sid roomId x y|sid roomId
                  |sid roomId|sid roomId|sid]; cbn [step sender] in Hstep.
    + destruct (decide _); [discriminate|]. injection Hstep as <- _.
      by apply Hsame_rooms.
    + destruct (decide _); [|discriminate].
      destruct (pick_room_id draws (rooms st)) as [roomId|] eqn:Hpick;
        [|unfold create_room in Hstep; by rewrite Hpick in Hstep].
      rewrite (create_room_picked _ _ _ _ _ _ Hpick) in Hstep.
      injection Hstep as <- _. apply pick_room_id_fresh in Hpick.
      cbn [rooms socket_join with_rooms] in Hroom'.
      rewrite get_set_ne in Hroom' by congruence.
      rewrite Hroom in Hroom'. injection Hroom' as <-.
      rewrite Hu in Hu'. by injection Hu' as <-.
    + destruct (decide _); [|discriminate]. injection Hstep as Hstep.
      destruct (join_room_cases st sid roomId username)
        as [[reason Hrej]|(room0 & Hget0 & Hsize)].
      * rewrite Hrej in Hstep. injection Hstep as <- _. by apply Hsame_rooms.
      * rewrite (join_room_accepted _ _ _ _ room0) in Hstep by done.
        injection Hstep as <- _.
        eapply (Hset roomId room0); [done|reflexivity|].
        intros -> v Hv. cbn [users with_users] in Hv.
        rewrite Hroom in Hget0. injection Hget0 as <-.
        destruct (decide (sid = s)) as [->|Hne];
          [by destruct (Hnot username)|].
        rewrite get_set_ne in Hv by done. rewrite Hu in Hv.
        by injection Hv as <-.
    + destruct (decide _); [|discriminate]. injection Hstep as Hstep.
      destruct (JSMap.get roomId (rooms st)) as [room0|] eqn:Hget0.
      * rewrite (canvas_update_found _ _ _ _ _ _ Hget0) in Hstep.
        injection Hstep as <- _.
        eapply (Hset roomId room0); [done|reflexivity|].
        intros -> v Hv. cbn [users] in Hv.
        rewrite Hroom in Hget0. injection Hget0 as <-.
        rewrite Hu in Hv. by injection Hv as <-.
      * rewrite canvas_update_missing in Hstep by done.
        injection Hstep as <- _. by apply Hsame_rooms.
    + destruct (decide _); [|discriminate].
      eapply Hon; [|exact Hstep]. by intros [].
    + destruct (decide _); [|discriminate].
      eapply Hon; [|exact Hstep]. by intros [].
    + destruct (decide _); [|discriminate].
      eapply Hon; [|exact Hstep]. by intros [].
    + destruct (decide _); [|discriminate]. injection Hstep as Hstep.
      unfold request_sync in Hstep.
      destruct (JSMap.get roomId (rooms st)); injection Hstep as <- _;
        by apply Hsame_rooms.
    + destruct (decide _); [|discriminate]. injection Hstep as Hstep.
      rewrite disconnect_result in Hstep. injection Hstep as <- _.
      cbn [rooms] in Hroom'. apply reachable_invariant in Hreach.
      destruct (disconnect_loop_rooms sid (rooms st) (rooms st)
                  (λ k v, NoDup_keys_get k v _ (inv_keys _ Hreach))
                  r room' Hroom') as (room0 & Hget0 & Hcase).
      rewrite Hroom in Hget0. injection Hget0 as <-.
      destruct Hcase as [->|[-> _]].
      * rewrite Hu in Hu'. by injection Hu' as <-.
      * cbn [users with_users] in Hu'.
        destruct (decide (sid = s)) as [->|Hne];
          [by rewrite get_delete_eq in Hu'|].
        rewrite get_delete_ne in Hu' by done. rewrite Hu in Hu'.
        by injection Hu' as <-.
  - intros sid roomId x y room user Hget Huser st'. subst st'.
    destruct (on_user_effect st sid roomId (with_cursor (Some (x, y)))
                (λ user, cursor_updated sid (cursor user) (color user)
                           (name user) (isDrawing user)) room user Hget Huser)
      as ((room' & H1 & H2 & H3 & _ & H4 & H5 & _) & Hother & _).
    split; [|exact Hother]. exists room'. done.
  - intros sid roomId flag room user Hget Huser st'. subst st'.
    destruct flag.
    + destruct (on_user_effect st sid roomId (with_isDrawing true)
                  (λ user, user_drawing_start sid (color user) (name user))
                  room user Hget Huser)
        as ((room' & H1 & H2 & H3 & _ & H4 & H5 & _) & Hother & _).
      split; [|exact Hother]. exists room'. done.
    + destruct (on_user_effect st sid roomId (with_isDrawing false)
                  (λ _, user_drawing_end sid) room user Hget Huser)
        as ((room' & H1 & H2 & H3 & _ & H4 & H5 & _) & Hother & _).
      split; [|exact Hother]. exists room'. done.
Qed.

Lemma presence_frame_witness :
  let st := state_after alice_and_bob in
  reachable st ∧
  ∀ r, r ≠ "ROOM01" →
       JSMap.get r (rooms (cursor_move "b" "ROOM01" 3%Q 4%Q st).1)
       = JSMap.get r (rooms st).
Proof.
  assert (Hreach : reachable (state_after alice_and_bob)).
  { exists alice_and_bob. eexists. vm_compute. reflexivity. }
  assert (Hget : JSMap.get "ROOM01" (rooms (state_after alice_and_bob))
                 = Some (the_room "ROOM01" (state_after alice_and_bob)))
    by (vm_compute; reflexivity).
  assert (Huser : JSMap.get "b"
                    (users (the_room "ROOM01" (state_after alice_and_bob)))
                  = Some (new_user "b" "Bob"
                            (the_room "ROOM01" (state_after alice_and_outsider))))
    by (vm_compute; reflexivity).
  split; [exact Hreach|].
  exact (proj2 (proj1 (proj2 (presence_frame _ Hreach))
                  "b" "ROOM01" 3%Q 4%Q _ _ Hget Huser)).
Defined.

(** *** No per-connection protocol state *)

Lemma participant_not_None st r s :
  ¬ participant st r s →
  ∀ room, JSMap.get r (rooms st) = Some room → JSMap.get s (users room) = None.
Proof.
  intros Hnot room Hget. apply eq_None_not_Some. intros Hs.
  apply Hnot. by exists room.
Qed.

(** C7 as stated fails twice over.  Carol, connected but in no room, sends
    a [canvas_update] for Alice's room: the canvas is replaced and Alice is
    sent the update.  And after Bob, already in ["ROOM01"], creates
    ["ROOM02"] and Alice, already in ["ROOM01"], joins it, each of them is
    a participant of both rooms. *)
Lemma outsider_update_and_second_room :
  let st := state_after alice_and_outsider in
  let st' := (canvas_update "c" "ROOM01" [JStr "scribble"] 5%Q st).1 in
  JSMap.has "c" (users (the_room "ROOM01" st)) = false ∧
  JSMap.keys (rooms st) = ["ROOM01"] ∧
  canvasState (the_room "ROOM01" st) = [] ∧
  canvasState (the_room "ROOM01" st') = [JStr "scribble"] ∧
  (canvas_update "c" "ROOM01" [JStr "scribble"] 5%Q st).2
  = [EmitTo "ROOM01" "c" (canvas_updated [JStr "scribble"] "c" 5%Q)] ∧
  recipients st' (EmitTo "ROOM01" "c" (canvas_updated [JStr "scribble"] "c" 5%Q))
  = {["a"]} ∧
  let st2 := state_after two_rooms_each in
  (JSMap.keys ∘ users) <$> JSMap.get "ROOM01" (rooms st2) = Some ["a"; "b"] ∧
  (JSMap.keys ∘ users) <$> JSMap.get "ROOM02" (rooms st2) = Some ["b"; "a"].
Proof.
  repeat split; vm_compute; reflexivity.
Qed.

(** C7, amended.  The server keeps no protocol state per connection.  A
    [canvas_update] is dropped only when the room it names does not exist;
    otherwise it replaces the canvas and is broadcast to the room's channel,
    whoever sent it.  [cursor_move], [drawing_start] and [drawing_end] are
    dropped, with no state change and no message, when the sender is not a
    participant of the room named.  A connection that is a participant of
    one room and joins or creates another becomes a participant of that one
    too and stays a participant of the first. *)
Theorem no_connection_state (st : State) (sid : string) :
  (∀ roomId elements timestamp room,
      JSMap.get roomId (rooms st) = Some room →
      (∃ room',
          JSMap.get roomId
            (rooms (canvas_update sid roomId elements timestamp st).1)
          = Some room' ∧
          canvasState room' = elements ∧ lastUpdate room' = timestamp) ∧
      (canvas_update sid roomId elements timestamp st).2
      = [EmitTo roomId sid (canvas_updated elements sid timestamp)]) ∧
  (∀ roomId elements timestamp,
      JSMap.get roomId (rooms st) = None →
      canvas_update sid roomId elements timestamp st = (st, [])) ∧
  (∀ roomId,
      ¬ participant st roomId sid →
      (∀ x y, cursor_move sid roomId x y st = (st, [])) ∧
      drawing_start sid roomId st = (st, []) ∧
      drawing_end sid roomId st = (st, [])) ∧
  (∀ r1 r2 username room2,
      participant st r1 sid → r1 ≠ r2 →
      JSMap.get r2 (rooms st) = Some room2 →
      (JSMap.size (users room2) < 10)%nat →
      participant (join_room sid r2 username st).1 r1 sid ∧
      participant (join_room sid r2 username st).1 r2 sid) ∧
  (∀ r1 username draws now st' out,
      participant st r1 sid →
      create_room sid username draws now st = Some (st', out) →
      ∃ r2, r2 ≠ r1 ∧ participant st' r1 sid ∧ participant st' r2 sid).
Proof.
  split; [|split; [|split; [|split]]].
  - intros roomId elements timestamp room Hget.
    rewrite (canvas_update_found _ _ _ _ _ _ Hget). cbn [fst snd].
    split; [|done]. eexists. cbn [rooms with_rooms]. rewrite get_set_eq.
    split; [reflexivity|]. done.
  - intros roomId elements timestamp Hget. by apply canvas_update_missing.
  - intros roomId Hnot. pose proof (participant_not_None _ _ _ Hnot) as Hno.
    split; [intros x y|split]; by apply on_user_ignored.
  - intros r1 r2 username room2 Hp Hne Hget Hsize.
    rewrite (join_room_accepted _ _ _ _ room2) by done. cbn [fst].
    split.
    + eapply participant_set_room; [reflexivity|]. right. done.
    + eapply participant_set_room; [reflexivity|]. left. split; [done|].
      cbn [users with_users]. rewrite get_set_eq. eauto.
  - intros r1 username draws now st' out Hp Hcreate.
    destruct (pick_room_id draws (rooms st)) as [roomId|] eqn:Hpick;
      [|unfold create_room in Hcreate; by rewrite Hpick in Hcreate].
    rewrite (create_room_picked _ _ _ _ _ _ Hpick) in Hcreate.
    injection Hcreate as <- _. apply pick_room_id_fresh in Hpick.
    exists roomId.
    assert (Hne : roomId ≠ r1).
    { intros ->. destruct Hp as (room & Hget & _). congruence. }
    split; [done|]. split.
    + eapply participant_set_room; [reflexivity|]. right. done.
    + eapply participant_set_room; [reflexivity|]. left. split; [done|].
      cbn [users]. rewrite get_set_eq. eauto.
Qed.

Lemma no_connection_state_witness :
  let st := state_after alice_and_outsider in
  ¬ participant st "ROOM01" "c" ∧
  drawing_start "c" "ROOM01" st = (st, []).
Proof.
  assert (Hnot : ¬ participant (state_after alice_and_outsider) "ROOM01" "c").
  { intros (room & Hget & Hs). vm_compute in Hget. injection Hget as <-.
    vm_compute in Hs. destruct Hs as [u Hu]. discriminate. }
  split; [exact Hnot|].
  exact (proj1 (proj2 (proj1 (proj2 (proj2
    (no_connection_state (state_after alice_and_outsider) "c")))
      "ROOM01" Hnot))).
Defined.

(** *** Leaving *)

(** No room is ever kept without a participant entry. *)
Lemma retained_room_occupied st r room :
  reachable st → JSMap.get r (rooms st) = Some room →
  (0 < JSMap.size (users room))%nat.
Proof. intros Hreach. apply inv_occupied. by apply reachable_invariant. Qed.

Lemma disconnect_loop_first sid r room user rs entries :
  (∀ k room0, (k, room0) ∈ entries → JSMap.get k rs = Some room0) →
  (r, room) ∈ entries →
  JSMap.get sid (users room) = Some user →
  (∀ k room0, (k, room0) ∈ entries →
              is_Some (JSMap.get sid (users room0)) → k = r) →
  disconnect_loop sid entries rs
  = if decide (JSMap.size (JSMap.delete sid (users room)) = 0%nat)
    then (JSMap.delete r rs, [])
    else (JSMap.set r (with_users (JSMap.delete sid (users room)) room) rs,
          [EmitTo r sid (user_left sid (name user))]).
Proof.
  intros Hentries Hin Huser Honly.
  induction entries as [|[k room0] entries IH]; [by apply elem_of_nil in Hin|].
  simpl. destruct (JSMap.get sid (users room0)) as [user0|] eqn:Huser0.
  - assert (k = r) as -> by (eapply Honly; [apply list_elem_of_here|eauto]).
    assert (room0 = room) as ->.
    { pose proof (Hentries r room0 (list_elem_of_here _ _)) as H0.
      pose proof (Hentries r room Hin) as H1. congruence. }
    rewrite Huser in Huser0. injection Huser0 as <-. done.
  - apply elem_of_cons in Hin as [[= -> ->]|Hin]; [congruence|].
    apply IH; [|done|].
    + intros k' room1 H. apply Hentries. by apply list_elem_of_further.
    + intros k' room1 H. apply Honly. by apply list_elem_of_further.
Qed.

(** What does hold of leaving: when the socket is a participant of one room
    only, [disconnect] takes it out of that room; the room is dropped at
    once if nobody is left, after which joining it answers "Room not
    found"; otherwise the others are told [user_left]. *)
Lemma disconnect_single_room st sid r room user :
  reachable st →
  JSMap.get r (rooms st) = Some room →
  JSMap.get sid (users room) = Some user →
  (∀ r', participant st r' sid → r' = r) →
  let st' := (disconnect sid st).1 in
  let remaining := JSMap.delete sid (users room) in
  (∀ r', ¬ participant st' r' sid) ∧
  (JSMap.size remaining = 0%nat →
     JSMap.get r (rooms st') = None ∧
     (disconnect sid st).2 = [] ∧
     ∀ s username,
       join_room s r username st' = (st', [Emit s (room_error "Room not found")])) ∧
  (JSMap.size remaining ≠ 0%nat →
     JSMap.get r (rooms st') = Some (with_users remaining room) ∧
     (disconnect sid st).2 = [EmitTo r sid (user_left sid (name user))]).
Proof.
  intros Hreach Hget Huser Honly st' remaining. subst st' remaining.
  apply reachable_invariant in Hreach. pose proof (inv_keys _ Hreach) as Hnd.
  assert (Hentries : ∀ k room0, (k, room0) ∈ rooms st →
                                JSMap.get k (rooms st) = Some room0)
    by (intros k room0; by apply NoDup_keys_get).
  rewrite disconnect_result. cbn [fst snd].
  rewrite (disconnect_loop_first sid r room user (rooms st) (rooms st)
             Hentries (get_Some_elem _ _ _ Hget) Huser).
  2:{ intros k room0 Hin Hs. apply Honly. exists room0. eauto. }
  destruct (decide (JSMap.size (JSMap.delete sid (users room)) = 0%nat))
    as [Hzero|Hsome]; cbn [fst snd].
  - split; [|split; [|done]].
    + intros r' (room' & Hget' & Hs'). cbn [rooms] in Hget'.
      destruct (decide (r = r')) as [->|Hne];
        [by rewrite get_delete_eq in Hget'|].
      rewrite get_delete_ne in Hget' by done.
      apply Hne. symmetry. apply Honly. by exists room'.
    + intros _. cbn [rooms]. rewrite get_delete_eq. split; [done|].
      split; [done|]. intros s username. unfold join_room. cbn [rooms].
      by rewrite get_delete_eq.
  - split; [|split; [done|]].
    + intros r' (room' & Hget' & Hs'). cbn [rooms] in Hget'.
      destruct (decide (r = r')) as [->|Hne].
      * rewrite get_set_eq in Hget'. injection Hget' as <-.
        cbn [users with_users] in Hs'. rewrite get_delete_eq in Hs'.
        by destruct Hs'.
      * rewrite get_set_ne in Hget' by done.
        apply Hne. symmetry. apply Honly. by exists room'.
    + intros _. cbn [rooms]. by rewrite get_set_eq.
Qed.

(** The sole participant leaves: the room is gone and a later join is
    answered "Room not found". *)
Example sole_participant_leaves :
  option_map snd
    (run [ Connection "a"; CreateRoom "a" "Alice" ["ROOM01"] 0%Q;
           Disconnect "a"; Connection "b"; JoinRoom "b" "ROOM01" "Bob" ] init)
  = Some [ Emit "a" (room_created "ROOM01"
                       {| user_id := "a"; name := "Alice"; color := "#FF6B6B";
                          cursor := None; isDrawing := false |});
           Emit "b" (room_error "Room not found") ].
Proof. vm_compute. reflexivity. Qed.

(** C3.  The [disconnect] handler is commented "Remove user from all rooms"
    but leaves its loop at the first room that lists the socket.  Alice
    creates two rooms from one connection and disconnects: ["ROOM01"] is
    dropped, ["ROOM02"] is kept with the departed socket as its only
    participant, and Bob's later join to ["ROOM02"] is let in, next to
    her, instead of being answered "Room not found". *)
Theorem disconnect_leaves_later_rooms :
  let st := state_after alice_twice in
  let st' := state_after (alice_twice ++ [Disconnect "a"]) in
  (JSMap.keys ∘ users) <$> JSMap.get "ROOM01" (rooms st) = Some ["a"] ∧
  (JSMap.keys ∘ users) <$> JSMap.get "ROOM02" (rooms st) = Some ["a"] ∧
  st' = (disconnect "a" st).1 ∧
  JSMap.get "ROOM01" (rooms st') = None ∧
  (JSMap.keys ∘ users) <$> JSMap.get "ROOM02" (rooms st') = Some ["a"] ∧
  sockets st' !! "a" = None ∧
  "a" ∈ closed st' ∧
  ∃ bob,
    option_map snd (run [Connection "b"; JoinRoom "b" "ROOM02" "Bob"] st')
    = Some [ Emit "b" (room_joined "ROOM02" bob
                         [ {| user_id := "a"; name := "Alice";
                              color := "#FF6B6B"; cursor := None;
                              isDrawing := false |}; bob ] []);
             EmitTo "ROOM02" "b" (user_joined bob) ].
Proof.
  repeat (split; [vm_compute; reflexivity|]).
  eexists. vm_compute. reflexivity.
Qed.

End RoomsFacts.

(** * Further properties of the two servers *)

(** ** More laws of [JSMap] *)

Module JSMapMore.
Import JSMapFacts.
Section facts.
Context {V : Type}.
Implicit Types (m : JSMap.t V) (k : string) (v : V).

Lemma replace_same k v m : JSMap.get k m = Some v → JSMap.replace k v m = m.
Proof.
  induction m as [|[k' v'] m IH]; simpl; [done|].
  destruct (decide (k = k')) as [->|Hne].
  - by intros [= ->].
  - intros H. by rewrite IH.
Qed.

(** Storing under a key the value it already has changes nothing. *)
Lemma set_same k v m : JSMap.get k m = Some v → JSMap.set k v m = m.
Proof.
  intros H. unfold JSMap.set.
  assert (Hhas : JSMap.has k m = true) by (apply has_true; eauto).
  rewrite Hhas. by apply replace_same.
Qed.

Lemma size_set_le k v m : (JSMap.size (JSMap.set k v m) ≤ S (JSMap.size m))%nat.
Proof.
  destruct (JSMap.get k m) as [v'|] eqn:Hget.
  - rewrite size_set_present by eauto. lia.
  - by rewrite size_set_absent.
Qed.

Lemma size_delete_le k m : (JSMap.size (JSMap.delete k m) ≤ JSMap.size m)%nat.
Proof. unfold JSMap.size, JSMap.delete. apply length_filter. Qed.

Lemma get_delete_Some k k' v m :
  JSMap.get k' (JSMap.delete k m) = Some v → k ≠ k' ∧ JSMap.get k' m = Some v.
Proof.
  intros H. destruct (decide (k = k')) as [->|Hne].
  - by rewrite get_delete_eq in H.
  - by rewrite get_delete_ne in H.
Qed.

End facts.
End JSMapMore.

(** ** The gateway: adding, clearing, composing, logging *)

Module GatewayMore.
Import Gateway GatewayFacts.

Lemma store_set_plain k o s :
  k ≠ "__proto__" →
  store_set k o s = {| own := <[k := o]> (own s); proto := proto s |}.
Proof.
  intros Hk. unfold store_set.
  by rewrite (bool_decide_eq_false_2 (k = "__proto__")).
Qed.


Lemma to_obj_id data : to_obj data !! "id" = Some (JStr (id data)).
Proof. unfold to_obj. apply lookup_insert_eq. Qed.

Lemma elem_of_store_values s o :
  o ∈ store_values s ↔ ∃ k, own s !! k = Some o.
Proof.
  unfold store_values. rewrite list_elem_of_fmap. split.
  - intros [[k o'] [-> H]]. exists k. by apply elem_of_map_to_list.
  - intros [k Hk]. exists (k, o). split; [done|].
    by apply elem_of_map_to_list.
Qed.

(** X1.  [object:added] with any id other than ["__proto__"] files the
    message body, whole, under its id: whatever was stored there before is
    replaced, not merged; every other entry is untouched; the body is
    broadcast unchanged; and the next client to connect is sent the body in
    its [object:sync]. *)
Theorem add_stores_wholesale (st : State) (data : WhiteboardObject)
  (client newcomer : string) :
  id data ≠ "__proto__" →
  let st' := (handleObjectAdded data client st).1 in
  own (objects st') !! id data = Some (to_obj data) ∧
  (∀ i, i ≠ id data → own (objects st') !! i = own (objects st) !! i) ∧
  proto (objects st') = proto (objects st) ∧
  (handleObjectAdded data client st).2
  = [Broadcast client "object:added" (JObj (to_obj data))] ∧
  ∃ listed,
    (handleConnection newcomer st').2
    = [Emit newcomer "object:sync" (JObj {[ "objects" := JArr listed ]})] ∧
    JObj (to_obj data) ∈ listed.
Proof.
  intros Hid st'. subst st'. unfold handleObjectAdded. cbn [fst snd].
  cbn [objects with_objects]. rewrite objects_log, store_set_plain by done.
  cbn [own proto]. split; [apply lookup_insert_eq|].
  split; [intros i Hi; by apply lookup_insert_ne|].
  split; [done|]. split; [done|].
  eexists. split; [reflexivity|]. cbn [objects with_objects].
  apply list_elem_of_fmap. exists (to_obj data). split; [done|].
  apply elem_of_store_values. exists (id data). apply lookup_insert_eq.
Qed.

Lemma add_stores_wholesale_witness :
  id rect_r1 ≠ "__proto__" ∧
  own (objects (handleObjectAdded rect_r1 "alice" alice_and_bob).1) !! "r1"
  = Some (to_obj rect_r1).
Proof.
  assert (H : id rect_r1 ≠ "__proto__") by discriminate.
  split; [exact H|].
  exact (proj1 (add_stores_wholesale alice_and_bob rect_r1 "alice" "carol" H)).
Defined.

(** X2.  [object:added] with id ["__proto__"], while the store has no own
    entry of that name and still has its original prototype, stores nothing:
    the assignment reaches the accessor of [Object.prototype], so the set of
    stored objects is as before (a later [object:sync] does not list the
    body) although the event is broadcast.  The body becomes the store's
    prototype instead, so every name it carries and the store does not now
    reads as the body's value, and a later [object:modified] for the name
    ["id"] is no longer dropped. *)
Theorem add_proto_rebinds (st : State) (data : WhiteboardObject)
  (client : string) :
  id data = "__proto__" →
  own (objects st) !! "__proto__" = None →
  proto (objects st) = None →
  let st' := (handleObjectAdded data client st).1 in
  own (objects st') = own (objects st) ∧
  store_values (objects st') = store_values (objects st) ∧
  (handleObjectAdded data client st).2
  = [Broadcast client "object:added" (JObj (to_obj data))] ∧
  (∀ k v, own (objects st) !! k = None → to_obj data !! k = Some v →
          store_get (objects st') k = v) ∧
  (∀ other sender,
      id other = "id" → own (objects st) !! "id" = None →
      (handleObjectModified other sender st').2
      = [Broadcast sender "object:modified" (JObj (to_obj other))]).
Proof.
  intros Hid Hown Hproto st'. subst st'. unfold handleObjectAdded.
  cbn [fst snd objects with_objects]. rewrite objects_log.
  assert (Hset : store_set (id data) (to_obj data) (objects st)
                 = {| own := own (objects st); proto := Some (to_obj data) |}).
  { unfold store_set. rewrite Hid, Hown, Hproto. reflexivity. }
  rewrite Hset. cbn [own]. split; [done|]. split; [done|]. split; [done|].
  assert (Hread : ∀ k v, own (objects st) !! k = None →
                         to_obj data !! k = Some v →
                         store_get {| own := own (objects st);
                                      proto := Some (to_obj data) |} k = v).
  { intros k v Hk Hv. unfold store_get. cbn [own proto]. by rewrite Hk, Hv. }
  split; [exact Hread|].
  intros other sender Hother Hfree. unfold handleObjectModified.
  rewrite objects_log. cbn [objects with_objects]. rewrite Hother.
  rewrite (Hread "id" (JStr (id data)) Hfree (to_obj_id data)).
  rewrite Hid. reflexivity.
Qed.

Lemma add_proto_rebinds_witness :
  id proto_body = "__proto__" ∧
  own (objects alice_and_bob) !! "__proto__" = None ∧
  proto (objects alice_and_bob) = None ∧
  store_values (objects (handleObjectAdded proto_body "alice" alice_and_bob).1)
  = store_values (objects alice_and_bob).
Proof.
  assert (H1 : id proto_body = "__proto__") by reflexivity.
  assert (H2 : own (objects alice_and_bob) !! "__proto__" = None)
    by (vm_compute; reflexivity).
  assert (H3 : proto (objects alice_and_bob) = None) by reflexivity.
  split; [exact H1|]. split; [exact H2|]. split; [exact H3|].
  exact (proj1 (proj2
    (add_proto_rebinds alice_and_bob proto_body "alice" H1 H2 H3))).
Defined.

(** X3.  Adding an object under an id that is not stored (and is not
    ["__proto__"]) and then removing that id puts the store back exactly as
    it was. *)
Theorem add_then_remove (st : State) (data gone : WhiteboardObject)
  (c1 c2 : string) :
  id data ≠ "__proto__" →
  own (objects st) !! id data = None →
  id gone = id data →
  objects (handleObjectRemoved gone c2 (handleObjectAdded data c1 st).1).1
  = objects st.
Proof.
  intros Hid Hfree Hsame. unfold handleObjectRemoved, handleObjectAdded.
  cbn [fst objects with_objects log].
  rewrite store_set_plain by done.
  unfold store_delete. cbn [own proto]. rewrite Hsame.
  rewrite delete_insert_id by done. by destruct (objects st).
Qed.

Lemma add_then_remove_witness :
  id rect_r1 ≠ "__proto__" ∧
  own (objects alice_and_bob) !! id rect_r1 = None ∧
  objects (handleObjectRemoved red_r1 "bob"
             (handleObjectAdded rect_r1 "alice" alice_and_bob).1).1
  = objects alice_and_bob.
Proof.
  assert (H1 : id rect_r1 ≠ "__proto__") by discriminate.
  assert (H2 : own (objects alice_and_bob) !! id rect_r1 = None)
    by (vm_compute; reflexivity).
  split; [exact H1|]. split; [exact H2|].
  exact (add_then_remove alice_and_bob rect_r1 red_r1 "alice" "bob" H1 H2
           eq_refl).
Defined.

(** X4.  [canvas:clear] always leaves an empty store with its original
    prototype, whatever was stored or rebound before, and broadcasts the
    event without a body.  Right after it, a connecting client is sent an
    empty object list, and an [object:modified] for any name that
    [Object.prototype] does not define is dropped. *)
Theorem clear_empties (st : State) (client newcomer : string) :
  let st' := (handleCanvasClear client st).1 in
  objects st' = empty_store ∧
  clients st' = clients st ∧
  (handleCanvasClear client st).2 = [Broadcast client "canvas:clear" JUndefined] ∧
  (handleConnection newcomer st').2
  = [Emit newcomer "object:sync" (JObj {[ "objects" := JArr [] ]})] ∧
  (∀ data sender,
      id data ∉ object_prototype_names →
      objects (handleObjectModified data sender st').1 = empty_store ∧
      (handleObjectModified data sender st').2 = []).
Proof.
  simpl. split; [done|]. split; [done|]. split; [done|]. split.
  - unfold sync_body, store_values. cbn [objects own empty_store].
    by rewrite map_to_list_empty.
  - intros data sender Hid.
    pose proof (modify_absent_plain_name
                  (with_objects empty_store (log "canvas:clear" (JObj ∅) st))
                  data sender (lookup_empty _) eq_refl Hid) as H.
    destruct (handleObjectModified data sender _) as [st2 out2].
    destruct H as (H1 & _ & H2). simpl. by rewrite H1, H2.
Qed.



(** What [object:modified] leaves in the store when the id is stored. *)
Lemma modify_stored st data client o :
  own (objects st) !! id data = Some o →
  objects (handleObjectModified data client st).1
  = {| own := <[id data :=
                  <["props" := JObj (props data ∪ spread (get_props (JObj o)))]>
                    o]> (own (objects st));
       proto := proto (objects st) |}.
Proof.
  intros Hown. unfold handleObjectModified.
  rewrite objects_log, (store_get_own _ _ _ Hown). cbn [truthy fst].
  cbn [objects with_objects]. by rewrite (store_set_own _ _ o).
Qed.

(** X6.  [object:modified] on a stored id is idempotent: the same body sent
    a second time, by any client, leaves the store as the first left it. *)
Theorem modify_twice (st : State) (data : WhiteboardObject) (c1 c2 : string)
  (o : jsobj) :
  own (objects st) !! id data = Some o →
  objects (handleObjectModified data c2 (handleObjectModified data c1 st).1).1
  = objects (handleObjectModified data c1 st).1.
Proof.
  intros Hown. rewrite (modify_stored st data c1 o Hown).
  set (o1 := <["props" := JObj (props data ∪ spread (get_props (JObj o)))]> o).
  assert (Hown1 : own (objects (handleObjectModified data c1 st).1) !! id data
                  = Some o1).
  { rewrite (modify_stored st data c1 o Hown). apply lookup_insert_eq. }
  rewrite (modify_stored _ data c2 o1 Hown1).
  rewrite (modify_stored st data c1 o Hown). cbn [own proto]. fold o1.
  f_equal. rewrite insert_insert_eq. f_equal.
  subst o1. cbn [get_props spread]. rewrite lookup_insert_eq. cbn [default].
  rewrite insert_insert_eq. do 2 f_equal. unfold Datatypes.id. cbn [spread].
  rewrite (assoc_L (∪)). by rewrite (idemp_L (∪)).
Qed.

Lemma modify_twice_witness :
  let st := (run [ObjectAdded "alice" rect_r1] alice_and_bob).1 in
  own (objects st) !! id red_r1 = Some (to_obj rect_r1) ∧
  objects (handleObjectModified red_r1 "alice"
             (handleObjectModified red_r1 "bob" st).1).1
  = objects (handleObjectModified red_r1 "bob" st).1.
Proof.
  assert (H : own (objects (run [ObjectAdded "alice" rect_r1] alice_and_bob).1)
              !! id red_r1 = Some (to_obj rect_r1)) by (vm_compute; reflexivity).
  split; [exact H|].
  exact (modify_twice _ red_r1 "bob" "alice" _ H).
Defined.

(** X7.  Two [object:modified] events for the same stored id compose into
    one: the store ends as after a single event whose [props] are those of
    the second laid over those of the first. *)
Theorem modify_composes (st : State) (first second : WhiteboardObject)
  (c1 c2 c : string) (o : jsobj) :
  own (objects st) !! id first = Some o →
  id second = id first →
  objects (handleObjectModified second c2
             (handleObjectModified first c1 st).1).1
  = objects (handleObjectModified
               {| id := id first; props := props second ∪ props first;
                  rest := ∅ |} c st).1.
Proof.
  intros Hown Hid.
  set (o1 := <["props" := JObj (props first ∪ spread (get_props (JObj o)))]> o).
  assert (Hown1 : own (objects (handleObjectModified first c1 st).1) !! id second
                  = Some o1).
  { rewrite Hid, (modify_stored st first c1 o Hown). apply lookup_insert_eq. }
  rewrite (modify_stored _ second c2 o1 Hown1).
  rewrite (modify_stored st first c1 o Hown). cbn [own proto]. fold o1.
  rewrite (modify_stored st {| id := id first;
                               props := props second ∪ props first;
                               rest := ∅ |} c o Hown).
  cbn [id props]. rewrite Hid. f_equal. rewrite insert_insert_eq. f_equal.
  subst o1. cbn [get_props spread]. rewrite lookup_insert_eq. cbn [default].
  rewrite insert_insert_eq. do 2 f_equal. unfold Datatypes.id. cbn [spread].
  by rewrite (assoc_L (∪)).
Qed.

Lemma modify_composes_witness :
  let st := (run [ObjectAdded "alice" rect_r1] alice_and_bob).1 in
  own (objects st) !! id red_r1 = Some (to_obj rect_r1) ∧
  objects (handleObjectModified red_r1 "alice"
             (handleObjectModified red_r1 "bob" st).1).1
  = objects (handleObjectModified
               {| id := id red_r1; props := props red_r1 ∪ props red_r1;
                  rest := ∅ |} "carol" st).1.
Proof.
  assert (H : own (objects (run [ObjectAdded "alice" rect_r1] alice_and_bob).1)
              !! id red_r1 = Some (to_obj rect_r1)) by (vm_compute; reflexivity).
  split; [exact H|].
  exact (modify_composes _ red_r1 red_r1 "bob" "alice" "carol" _ H eq_refl).
Defined.

Lemma log_bound eventName p st :
  (length (eventLogs st) ≤ 100)%nat →
  (length (eventLogs (log eventName p st)) ≤ 100)%nat.
Proof.
  intros Hlen. unfold log. cbn [eventLogs].
  destruct (decide _) as [Hover|Hfits]; [|lia].
  destruct (eventLogs st) as [|e l]; simpl in *; [lia|].
  rewrite length_app in *. simpl in *. lia.
Qed.

(** X8.  [EventLogService.log] keeps a sliding window of the hundred newest
    entries: the entry just logged is always the last one; while fewer than
    a hundred are held it is appended; once a hundred are held the oldest is
    dropped to make room. *)
Theorem log_keeps_newest_hundred (st : State) (eventName : string)
  (p : jsval) :
  (length (getLogs st) ≤ 100)%nat →
  let entry := {| event := eventName; payload := p |} in
  let logs' := getLogs (log eventName p st) in
  last logs' = Some entry ∧
  (length logs' ≤ 100)%nat ∧
  ((length (getLogs st) < 100)%nat → logs' = (getLogs st ++ [entry])%list) ∧
  (length (getLogs st) = 100%nat →
     logs' = (tail (getLogs st) ++ [entry])%list).
Proof.
  unfold getLogs. intros Hlen. cbv zeta.
  split; [|split; [by apply log_bound|]];
    unfold log; cbn [eventLogs]; rewrite length_app; cbn [length].
  - destruct (decide _) as [Hover|Hfits]; [|apply last_snoc].
    destruct (eventLogs st) as [|e l]; [simpl in Hover; lia|].
    simpl. apply last_snoc.
  - split.
    + intros Hlt. destruct (decide _); [lia|done].
    + intros Hfull. destruct (decide _); [|lia].
      destruct (eventLogs st) as [|e0 l0]; [discriminate|done].
Qed.

Lemma log_keeps_newest_hundred_witness :
  (length (getLogs alice_and_bob) ≤ 100)%nat ∧
  last (getLogs (log "canvas:clear" (JObj ∅) alice_and_bob))
  = Some {| event := "canvas:clear"; payload := JObj ∅ |}.
Proof.
  assert (H : (length (getLogs alice_and_bob) ≤ 100)%nat)
    by (vm_compute; lia).
  split; [exact H|].
  exact (proj1 (log_keeps_newest_hundred alice_and_bob "canvas:clear"
                  (JObj ∅) H)).
Defined.

(** X9.  However many events the gateway has handled, [GET /logs] never
    returns more than a hundred entries. *)
Theorem logs_never_exceed_hundred (st : State) :
  reachable st → (length (getLogs st) ≤ 100)%nat.
Proof.
  unfold getLogs. intros [es ->].
  assert (Hgen : ∀ st0, (length (eventLogs st0) ≤ 100)%nat →
                        (length (eventLogs (run es st0).1) ≤ 100)%nat).
  { induction es as [|e es IH]; intros st0 Hst0; [exact Hst0|].
    simpl. destruct (step e st0) as [st1 out1] eqn:Hstep.
    destruct (run es st1) as [st2 out2] eqn:Hrun. cbn [fst].
    replace st2 with (run es st1).1 by (by rewrite Hrun).
    apply IH. replace st1 with (step e st0).1 by (by rewrite Hstep).
    destruct e as [c|c|c data|c data|c data|c]; cbn [step].
    - unfold handleConnection. cbn [fst]. by do 2 apply log_bound.
    - unfold handleDisconnect. cbn [fst]. by apply log_bound.
    - unfold handleObjectAdded. cbn [fst eventLogs with_objects].
      by apply log_bound.
    - unfold handleObjectModified.
      destruct (truthy _); cbn [fst eventLogs with_objects];
        by apply log_bound.
    - unfold handleObjectRemoved. cbn [fst eventLogs with_objects].
      by apply log_bound.
    - unfold handleCanvasClear. cbn [fst eventLogs with_objects].
      by apply log_bound. }
  apply Hgen. simpl. lia.
Qed.

Lemma logs_never_exceed_hundred_witness :
  reachable alice_and_bob ∧ (length (getLogs alice_and_bob) ≤ 100)%nat.
Proof.
  assert (H : reachable alice_and_bob)
    by (exists [Connect "alice"; Connect "bob"]; reflexivity).
  split; [exact H|]. exact (logs_never_exceed_hundred _ H).
Defined.

End GatewayMore.

(** ** The room server: creation, resync, bounds, delivery *)

Module RoomsMore.
Import Rooms JSMapFacts JSMapMore RoomsFacts.

(** *** Creating a room *)

Lemma pick_room_id_first draws rs r :
  pick_room_id draws rs = Some r →
  ∃ taken later,
    draws = (taken ++ r :: later)%list ∧
    (∀ d, d ∈ taken → is_Some (JSMap.get d rs)) ∧
    JSMap.get r rs = None.
Proof.
  induction draws as [|d ds IH]; simpl; [discriminate|].
  destruct (JSMap.has d rs) eqn:Hhas.
  - intros H. destruct (IH H) as (taken & later & -> & Htaken & Hfree).
    exists (d :: taken), later. split; [done|]. split; [|done].
    intros d' [->|Hd']%elem_of_cons; [by apply has_true|auto].
  - intros [= <-]. exists [], ds. split; [done|]. split.
    + intros d' Hd'. by apply elem_of_nil in Hd'.
    + by apply has_false.
Qed.

(** X10.  When [create_room] completes, the new room's id is the first
    result of [generateRoomId] that no existing room has; the room is filed
    under it with the creator as its one participant (first palette colour,
    no cursor, not drawing), an empty canvas and the creation time; every
    existing room is exactly as before; and only the creator is answered. *)
Theorem create_room_makes_new_room (st st' : State) (sid username : string)
  (draws : list string) (now : number) (out : list Emission) :
  create_room sid username draws now st = Some (st', out) →
  ∃ roomId taken later,
    let creator := {| user_id := sid; name := username; color := "#FF6B6B";
                      cursor := None; isDrawing := false |} in
    draws = (taken ++ roomId :: later)%list ∧
    (∀ d, d ∈ taken → is_Some (JSMap.get d (rooms st))) ∧
    JSMap.get roomId (rooms st) = None ∧
    JSMap.get roomId (rooms st')
    = Some {| room_id := roomId; users := [(sid, creator)];
              canvasState := []; lastUpdate := now |} ∧
    (∀ r, r ≠ roomId → JSMap.get r (rooms st') = JSMap.get r (rooms st)) ∧
    JSMap.size (rooms st') = S (JSMap.size (rooms st)) ∧
    out = [Emit sid (room_created roomId creator)] ∧
    recipients st' (Emit sid (room_created roomId creator)) = {[sid]}.
Proof.
  intros Hcreate.
  destruct (pick_room_id draws (rooms st)) as [roomId|] eqn:Hpick;
    [|unfold create_room in Hcreate; by rewrite Hpick in Hcreate].
  rewrite (create_room_picked _ _ _ _ _ _ Hpick) in Hcreate.
  injection Hcreate as <- <-.
  destruct (pick_room_id_first _ _ _ Hpick) as (taken & later & Hd & Ht & Hf).
  exists roomId, taken, later. cbv zeta.
  split; [done|]. split; [done|]. split; [done|].
  cbn [rooms socket_join with_rooms]. split; [apply get_set_eq|].
  split; [intros r Hr; by apply get_set_ne|].
  split; [by apply size_set_absent|]. done.
Qed.

Lemma create_room_makes_new_room_witness :
  ∃ st' out,
    create_room "b" "Bob" ["ROOM01"; "ROOM02"] 1%Q (state_after alice_and_bob)
    = Some (st', out) ∧
    JSMap.size (rooms st') = 2%nat.
Proof.
  assert (H : create_room "b" "Bob" ["ROOM01"; "ROOM02"] 1%Q
                (state_after alice_and_bob)
              = Some (state_after (alice_and_bob ++
                        [CreateRoom "b" "Bob" ["ROOM01"; "ROOM02"] 1%Q]),
                      [Emit "b" (room_created "ROOM02"
                         {| user_id := "b"; name := "Bob"; color := "#FF6B6B";
                            cursor := None; isDrawing := false |})]))
    by (vm_compute; reflexivity).
  eexists _, _. split; [exact H|].
  destruct (create_room_makes_new_room _ _ _ _ _ _ _ H)
    as (roomId & taken & later & _ & _ & _ & _ & _ & Hsize & _).
  rewrite Hsize. vm_compute. reflexivity.
Defined.

(** *** Asking for the state again *)

(** X11.  [request_sync] never changes the state and needs no membership:
    for an existing room it answers the requester alone with the stored
    canvas, its timestamp and the participant list, and for an unknown room
    it says nothing.  Read after write: right after a [canvas_update], by
    anyone, the answer carries exactly the elements and timestamp of that
    update. *)
Theorem sync_reads_last_update (st : State) (asker writer r : string)
  (elements : list jsval) (timestamp : number) (room : Room) :
  JSMap.get r (rooms st) = Some room →
  let st1 := (canvas_update writer r elements timestamp st).1 in
  request_sync asker r st
  = (st, [Emit asker (sync_response (canvasState room) (lastUpdate room)
                        (JSMap.values (users room)))]) ∧
  request_sync asker r st1
  = (st1, [Emit asker (sync_response elements timestamp
                         (JSMap.values (users room)))]) ∧
  (∀ r', JSMap.get r' (rooms st) = None → request_sync asker r' st = (st, [])).
Proof.
  intros Hget st1. subst st1. split; [|split].
  - unfold request_sync. by rewrite Hget.
  - rewrite (canvas_update_found _ _ _ _ _ _ Hget). cbn [fst].
    unfold request_sync. cbn [rooms with_rooms]. by rewrite get_set_eq.
  - intros r' Hr'. unfold request_sync. by rewrite Hr'.
Qed.

Lemma sync_reads_last_update_witness :
  let st := state_after alice_and_outsider in
  JSMap.get "ROOM01" (rooms st) = Some (the_room "ROOM01" st) ∧
  (request_sync "c" "ROOM01"
     (canvas_update "a" "ROOM01" [JStr "line"] 7%Q st).1).2
  = [Emit "c" (sync_response [JStr "line"] 7%Q
                 (JSMap.values (users (the_room "ROOM01" st))))].
Proof.
  assert (Hget : JSMap.get "ROOM01" (rooms (state_after alice_and_outsider))
                 = Some (the_room "ROOM01" (state_after alice_and_outsider)))
    by (vm_compute; reflexivity).
  split; [exact Hget|].
  pose proof (proj1 (proj2 (sync_reads_last_update
    (state_after alice_and_outsider) "c" "a" "ROOM01" [JStr "line"] 7%Q _
    Hget))) as H.
  exact (f_equal snd H).
Defined.

(** *** One start, one end *)

(** X12.  A participant who is not drawing and sends [drawing_start] and
    then [drawing_end] leaves the server state exactly as it was. *)
Theorem drawing_start_then_end (st : State) (sid r : string) (room : Room)
  (user : User) :
  JSMap.get r (rooms st) = Some room →
  JSMap.get sid (users room) = Some user →
  isDrawing user = false →
  (drawing_end sid r (drawing_start sid r st).1).1 = st.
Proof.
  intros Hget Huser Hidle. unfold drawing_start, drawing_end.
  unfold on_user at 2. rewrite Hget, Huser. cbn [fst].
  unfold on_user. cbn [rooms with_rooms]. rewrite get_set_eq.
  cbn [users with_users]. rewrite get_set_eq. cbn [fst].
  unfold with_rooms. cbn [rooms sockets closed]. rewrite !set_set.
  assert (Hback : with_isDrawing false (with_isDrawing true user) = user).
  { destruct user. simpl in *. by subst. }
  rewrite Hback. unfold with_users.
  cbn [room_id users canvasState lastUpdate].
  rewrite (set_same sid user (users room)) by done.
  assert (Hroom : {| room_id := room_id room; users := users room;
                     canvasState := canvasState room;
                     lastUpdate := lastUpdate room |} = room)
    by (by destruct room).
  rewrite Hroom, (set_same r room (rooms st)) by done. by destruct st.
Qed.

Lemma drawing_start_then_end_witness :
  let st := state_after alice_and_bob in
  JSMap.get "ROOM01" (rooms st) = Some (the_room "ROOM01" st) ∧
  (drawing_end "b" "ROOM01" (drawing_start "b" "ROOM01" st).1).1 = st.
Proof.
  assert (Hget : JSMap.get "ROOM01" (rooms (state_after alice_and_bob))
                 = Some (the_room "ROOM01" (state_after alice_and_bob)))
    by (vm_compute; reflexivity).
  assert (Huser : JSMap.get "b"
                    (users (the_room "ROOM01" (state_after alice_and_bob)))
                  = Some {| user_id := "b"; name := "Bob"; color := "#4ECDC4";
                            cursor := None; isDrawing := false |})
    by (vm_compute; reflexivity).
  split; [exact Hget|].
  exact (drawing_start_then_end _ "b" "ROOM01" _ _ Hget Huser eq_refl).
Defined.

(** *** What one event does to the rooms *)

Lemma getAvailableColor_in_palette room : getAvailableColor room ∈ userColors.
Proof.
  destruct (getAvailableColor_rule room) as [(i & Hi & _)|[_ H0]];
    by eapply list_elem_of_lookup_2.
Qed.

Lemma room_ok_new_entry r room sid u :
  room_ok r room → user_id u = sid → color u ∈ userColors →
  (JSMap.size (JSMap.set sid u (users room)) ≤ 10)%nat →
  room_ok r (with_users (JSMap.set sid u (users room)) room).
Proof.
  intros (Hid & Hsize & Hus) Hu Hc Hsz. split; [done|]. split; [done|].
  cbn [users with_users]. intros s v Hv.
  destruct (decide (sid = s)) as [->|Hne].
  - rewrite get_set_eq in Hv. by injection Hv as <-.
  - rewrite get_set_ne in Hv by done. eauto.
Qed.

Lemma on_user_replaces st sid r change notice :
  (∀ v, same_identity v (change v)) →
  (on_user sid r change notice st).1 = st ∨
  ∃ room', replaces_room st (on_user sid r change notice st).1 sid r room'.
Proof.
  intros Hchange.
  destruct (on_user_cases st sid r change notice)
    as [->|(room & user & Hget & Huser & ->)]; [by left|right].
  eexists. cbn [fst]. split; [reflexivity|]. split; [done|].
  split; [by left|]. split.
  - intros s (room0 & Hget0 & Hs). rewrite Hget in Hget0.
    injection Hget0 as <-. cbn [users with_users].
    destruct (decide (sid = s)) as [->|Hne]; [rewrite get_set_eq; eauto|].
    by rewrite get_set_ne.
  - intros Hok. pose proof (Hok r room Hget) as Hroom.
    destruct (Hchange user) as (Hi & _ & Hc).
    destruct Hroom as (Hid & Hsize & Hus).
    destruct (Hus sid user Huser) as [Hu Hcol].
    apply room_ok_new_entry; [done|congruence|by rewrite Hc|].
    rewrite size_set_present by eauto. done.
Qed.

(** Every event either opens a socket, closes one, changes nothing, or
    rewrites one room: the room it names or, for [create_room], a new one. *)
Lemma step_shape e st st' out :
  step e st = Some (st', out) →
  (∃ sid, e = Connection sid ∧ st' = connection sid st ∧
          (sid ∉ dom (sockets st)) ∧ (sid ∉ closed st)) ∨
  (∃ sid, e = Disconnect sid ∧ st' = (disconnect sid st).1) ∨
  st' = st ∨
  (∃ r0 room',
      replaces_room st st' (sender e) r0 room' ∧
      sender e ∈ dom (sockets st) ∧
      ∀ r, named_room e = Some r → r = r0).
Proof.
  intros Hstep.
  destruct e as [sid|sid username draws now|sid roomId username
                |sid roomId elements timestamp|sid roomId x y|sid roomId
                |sid roomId|sid roomId|sid]; cbn [step sender] in Hstep.
  - destruct (decide _) as [|Hfresh]; [discriminate|].
    injection Hstep as <- _. left. exists sid.
    split; [done|]. split; [done|]. split; intros ?; apply Hfresh; auto.
  - destruct (decide _) as [Hopen|]; [|discriminate].
    destruct (pick_room_id draws (rooms st)) as [roomId|] eqn:Hpick;
      [|unfold create_room in Hstep; by rewrite Hpick in Hstep].
    rewrite (create_room_picked _ _ _ _ _ _ Hpick) in Hstep.
    injection Hstep as <- _. apply pick_room_id_fresh in Hpick.
    do 3 right. eexists roomId, _. split; [|split; [done|discriminate]].
    split; [reflexivity|]. split; [done|]. split; [|split].
    + right. split; [done|]. cbn [users]. rewrite get_set_eq. eauto.
    + intros s (room0 & Hget0 & _). congruence.
    + intros _. split; [done|]. split; [cbn; lia|].
      cbn [users]. intros s u Hu.
      destruct (decide (sid = s)) as [->|Hne].
      * rewrite get_set_eq in Hu. injection Hu as <-.
        split; [done|]. apply getAvailableColor_in_palette.
      * rewrite get_set_ne in Hu by done. discriminate.
  - destruct (decide _) as [Hopen|]; [|discriminate]. injection Hstep as Hstep.
    destruct (join_room_cases st sid roomId username)
      as [[reason Hrej]|(room & Hget & Hsize)].
    + rewrite Hrej in Hstep. injection Hstep as <- _. by do 2 right; left.
    + rewrite (join_room_accepted _ _ _ _ room) in Hstep by done.
      injection Hstep as <- _. do 3 right. eexists roomId, _.
      split; [|split; [done|by intros r [= <-]]].
      split; [reflexivity|]. split; [done|]. split; [|split].
      * right. split; [done|]. cbn [users with_users].
        rewrite get_set_eq. eauto.
      * intros s (room0 & Hget0 & Hs). rewrite Hget in Hget0.
        injection Hget0 as <-. cbn [users with_users].
        destruct (decide (sid = s)) as [->|Hne]; [rewrite get_set_eq; eauto|].
        by rewrite get_set_ne.
      * intros Hok. apply room_ok_new_entry; [by apply Hok|done|..].
        -- apply getAvailableColor_in_palette.
        -- pose proof (size_set_le sid (new_user sid username room)
                         (users room)). lia.
  - destruct (decide _) as [Hopen|]; [|discriminate]. injection Hstep as Hstep.
    destruct (JSMap.get roomId (rooms st)) as [room|] eqn:Hget.
    + rewrite (canvas_update_found _ _ _ _ _ _ Hget) in Hstep.
      injection Hstep as <- _. do 3 right. eexists roomId, _.
      split; [|split; [done|by intros r [= <-]]].
      split; [reflexivity|]. split; [done|]. split; [by left|]. split.
      * intros s (room0 & Hget0 & Hs). rewrite Hget in Hget0.
        by injection Hget0 as <-.
      * intros Hok. destruct (Hok roomId room Hget) as (Hid & Hsize & Hus).
        done.
    + rewrite canvas_update_missing in Hstep by done.
      injection Hstep as <- _. by do 2 right; left.
  - destruct (decide _) as [Hopen|]; [|discriminate]. injection Hstep as Hstep.
    replace st' with (cursor_move sid roomId x y st).1 by (by rewrite Hstep).
    destruct (on_user_replaces st sid roomId (with_cursor (Some (x, y)))
                (λ user, cursor_updated sid (cursor user) (color user)
                           (name user) (isDrawing user)))
      as [Hsame|[room' Hrep]]; [by intros []|by do 2 right; left|].
    do 3 right. exists roomId, room'.
    split; [done|]. split; [done|by intros r [= <-]].
  - destruct (decide _) as [Hopen|]; [|discriminate]. injection Hstep as Hstep.
    replace st' with (drawing_start sid roomId st).1 by (by rewrite Hstep).
    destruct (on_user_replaces st sid roomId (with_isDrawing true)
                (λ user, user_drawing_start sid (color user) (name user)))
      as [Hsame|[room' Hrep]]; [by intros []|by do 2 right; left|].
    do 3 right. exists roomId, room'.
    split; [done|]. split; [done|by intros r [= <-]].
  - destruct (decide _) as [Hopen|]; [|discriminate]. injection Hstep as Hstep.
    replace st' with (drawing_end sid roomId st).1 by (by rewrite Hstep).
    destruct (on_user_replaces st sid roomId (with_isDrawing false)
                (λ _, user_drawing_end sid))
      as [Hsame|[room' Hrep]]; [by intros []|by do 2 right; left|].
    do 3 right. exists roomId, room'.
    split; [done|]. split; [done|by intros r [= <-]].
  - destruct (decide _) as [Hopen|]; [|discriminate]. injection Hstep as Hstep.
    unfold request_sync in Hstep. do 2 right; left.
    destruct (JSMap.get roomId (rooms st)); by injection Hstep as <- _.
  - destruct (decide _) as [Hopen|]; [|discriminate]. injection Hstep as Hstep.
    right; left. exists sid. split; [done|]. by rewrite Hstep.
Qed.

(** *** Bounds that every reachable room respects *)

Lemma disconnect_rooms_ok sid st :
  invariant st →
  (∀ r room, JSMap.get r (rooms st) = Some room → room_ok r room) →
  ∀ r room, JSMap.get r (rooms (disconnect sid st).1) = Some room →
            room_ok r room.
Proof.
  intros Hinv Hok r room'. rewrite disconnect_result. cbn [fst rooms].
  intros Hget.
  destruct (disconnect_loop_rooms sid (rooms st) (rooms st)
              (λ k v, NoDup_keys_get k v _ (inv_keys _ Hinv)) r room' Hget)
    as (room & Hroom & [->|[-> _]]); [eauto|].
  destruct (Hok r room Hroom) as (Hid & Hsize & Hus).
  split; [done|]. cbn [users with_users]. split.
  - pose proof (size_delete_le sid (users room)). lia.
  - intros s u [_ Hu]%get_delete_Some. eauto.
Qed.

Lemma step_rooms_ok e st st' out :
  invariant st →
  (∀ r room, JSMap.get r (rooms st) = Some room → room_ok r room) →
  step e st = Some (st', out) →
  ∀ r room, JSMap.get r (rooms st') = Some room → room_ok r room.
Proof.
  intros Hinv Hok Hstep.
  destruct (step_shape _ _ _ _ Hstep)
    as [(sid & _ & -> & _)|[(sid & _ & ->)|[->|(r0 & room' & Hrep & _)]]].
  - exact Hok.
  - by apply disconnect_rooms_ok.
  - exact Hok.
  - destruct Hrep as (Hrooms & _ & _ & _ & Hnew). intros r room.
    rewrite Hrooms. destruct (decide (r0 = r)) as [->|Hne].
    + rewrite get_set_eq. intros [= <-]. by apply Hnew.
    + rewrite get_set_ne by done. apply Hok.
Qed.

Lemma run_rooms_ok es st st' out :
  invariant st →
  (∀ r room, JSMap.get r (rooms st) = Some room → room_ok r room) →
  run es st = Some (st', out) →
  ∀ r room, JSMap.get r (rooms st') = Some room → room_ok r room.
Proof.
  revert st out. induction es as [|e es IH]; intros st out Hinv Hok; simpl.
  - by intros [= <- _].
  - destruct (step e st) as [[st1 out1]|] eqn:Hstep; [|discriminate].
    destruct (run es st1) as [[st2 out2]|] eqn:Hrun2; [|discriminate].
    intros [= <- _]. apply (IH st1 out2); [| |exact Hrun2].
    + by eapply step_invariant.
    + by eapply step_rooms_ok.
Qed.

Lemma reachable_rooms_ok st r room :
  reachable st → JSMap.get r (rooms st) = Some room → room_ok r room.
Proof.
  intros (es & out & Hrun). revert r room.
  apply (run_rooms_ok es init st out); [apply invariant_init| |exact Hrun].
  intros r room [=].
Qed.

(** X13.  No room ever holds more than ten participants, in any state the
    server can reach, re-joins and departures included. *)
Theorem room_never_over_capacity (st : State) (r : string) (room : Room) :
  reachable st → JSMap.get r (rooms st) = Some room →
  (JSMap.size (users room) ≤ 10)%nat.
Proof.
  intros Hreach Hget.
  by destruct (reachable_rooms_ok st r room Hreach Hget) as (_ & H & _).
Qed.

Lemma room_never_over_capacity_witness :
  let st := state_after nine_in_room in
  reachable st ∧
  JSMap.get "ROOM01" (rooms st) = Some (the_room "ROOM01" st) ∧
  (JSMap.size (users (the_room "ROOM01" st)) ≤ 10)%nat.
Proof.
  assert (Hreach : reachable (state_after nine_in_room)).
  { exists nine_in_room. eexists. vm_compute. reflexivity. }
  assert (Hget : JSMap.get "ROOM01" (rooms (state_after nine_in_room))
                 = Some (the_room "ROOM01" (state_after nine_in_room)))
    by (vm_compute; reflexivity).
  split; [exact Hreach|]. split; [exact Hget|].
  exact (room_never_over_capacity _ _ _ Hreach Hget).
Defined.

(** X14.  In every reachable state each room is filed under its own [id]
    and each participant under its own socket id, so the id a client reads
    in a [User] or a room is the key the server looks it up by. *)
Theorem ids_match_keys (st : State) (r s : string) (room : Room) (u : User) :
  reachable st →
  JSMap.get r (rooms st) = Some room →
  JSMap.get s (users room) = Some u →
  room_id room = r ∧ user_id u = s.
Proof.
  intros Hreach Hget Hu.
  destruct (reachable_rooms_ok st r room Hreach Hget) as (Hid & _ & Hus).
  split; [done|]. by destruct (Hus s u Hu).
Qed.

Lemma ids_match_keys_witness :
  let st := state_after alice_and_bob in
  reachable st ∧
  JSMap.get "ROOM01" (rooms st) = Some (the_room "ROOM01" st) ∧
  room_id (the_room "ROOM01" st) = "ROOM01".
Proof.
  assert (Hreach : reachable (state_after alice_and_bob)).
  { exists alice_and_bob. eexists. vm_compute. reflexivity. }
  assert (Hget : JSMap.get "ROOM01" (rooms (state_after alice_and_bob))
                 = Some (the_room "ROOM01" (state_after alice_and_bob)))
    by (vm_compute; reflexivity).
  assert (Hu : JSMap.get "b"
                 (users (the_room "ROOM01" (state_after alice_and_bob)))
               = Some {| user_id := "b"; name := "Bob"; color := "#4ECDC4";
                         cursor := None; isDrawing := false |})
    by (vm_compute; reflexivity).
  split; [exact Hreach|]. split; [exact Hget|].
  exact (proj1 (ids_match_keys _ _ _ _ _ Hreach Hget Hu)).
Defined.

(** X15.  In every reachable state every participant's colour is one of the
    eight palette colours. *)
Theorem colors_come_from_palette (st : State) (r s : string) (room : Room)
  (u : User) :
  reachable st →
  JSMap.get r (rooms st) = Some room →
  JSMap.get s (users room) = Some u →
  color u ∈ userColors.
Proof.
  intros Hreach Hget Hu.
  destruct (reachable_rooms_ok st r room Hreach Hget) as (_ & _ & Hus).
  by destruct (Hus s u Hu).
Qed.

Lemma colors_come_from_palette_witness :
  let st := state_after alice_and_bob in
  reachable st ∧
  JSMap.get "ROOM01" (rooms st) = Some (the_room "ROOM01" st) ∧
  "#4ECDC4" ∈ userColors.
Proof.
  assert (Hreach : reachable (state_after alice_and_bob)).
  { exists alice_and_bob. eexists. vm_compute. reflexivity. }
  assert (Hget : JSMap.get "ROOM01" (rooms (state_after alice_and_bob))
                 = Some (the_room "ROOM01" (state_after alice_and_bob)))
    by (vm_compute; reflexivity).
  assert (Hu : JSMap.get "b"
                 (users (the_room "ROOM01" (state_after alice_and_bob)))
               = Some {| user_id := "b"; name := "Bob"; color := "#4ECDC4";
                         cursor := None; isDrawing := false |})
    by (vm_compute; reflexivity).
  split; [exact Hreach|]. split; [exact Hget|].
  exact (colors_come_from_palette _ _ _ _ _ Hreach Hget Hu).
Defined.

(** X16.  While a room has fewer than eight participants, a join gives the
    joiner a colour that no other participant of the room has. *)
Theorem joiner_color_is_unused (st : State) (sid roomId username : string)
  (room : Room) :
  JSMap.get roomId (rooms st) = Some room →
  (JSMap.size (users room) < 8)%nat →
  ∃ room' user,
    JSMap.get roomId (rooms (join_room sid roomId username st).1) = Some room' ∧
    JSMap.get sid (users room') = Some user ∧
    ∀ s u, s ≠ sid → JSMap.get s (users room') = Some u →
           color u ≠ color user.
Proof.
  intros Hget Hsize.
  rewrite (join_room_accepted _ _ _ _ room) by (done || lia). cbn [fst].
  eexists _, _. cbn [rooms socket_join with_rooms]. rewrite get_set_eq.
  split; [reflexivity|]. cbn [users with_users]. rewrite get_set_eq.
  split; [reflexivity|]. intros s u Hs Hu. rewrite get_set_ne in Hu by done.
  cbn [color new_user].
  assert (Hused : color u ∈ color <$> JSMap.values (users room)).
  { apply list_elem_of_fmap. exists u. split; [done|].
    by eapply get_Some_values. }
  destruct (getAvailableColor_rule room) as [(i & _ & Hfree & _)|[Hall _]].
  - intros Heq. apply Hfree. by rewrite <- Heq.
  - exfalso.
    assert (Hnd : NoDup userColors)
      by (apply (bool_decide_unpack (NoDup userColors)); vm_compute; exact I).
    pose proof (submseteq_length _ _ (NoDup_submseteq _ _ Hnd Hall)) as Hlen.
    rewrite length_fmap in Hlen. unfold JSMap.values in Hlen.
    rewrite length_fmap in Hlen. unfold JSMap.size in Hsize.
    simpl in Hlen. lia.
Qed.

Lemma joiner_color_is_unused_witness :
  let st := state_after alice_and_bob in
  JSMap.get "ROOM01" (rooms st) = Some (the_room "ROOM01" st) ∧
  (JSMap.size (users (the_room "ROOM01" st)) < 8)%nat ∧
  ∃ room' user,
    JSMap.get "ROOM01" (rooms (join_room "c" "ROOM01" "Carol" st).1)
    = Some room' ∧
    JSMap.get "c" (users room') = Some user.
Proof.
  assert (Hget : JSMap.get "ROOM01" (rooms (state_after alice_and_bob))
                 = Some (the_room "ROOM01" (state_after alice_and_bob)))
    by (vm_compute; reflexivity).
  assert (Hsize : (JSMap.size (users (the_room "ROOM01"
                     (state_after alice_and_bob))) < 8)%nat)
    by (vm_compute; lia).
  split; [exact Hget|]. split; [exact Hsize|].
  destruct (joiner_color_is_unused (state_after alice_and_bob) "c" "ROOM01"
              "Carol" _ Hget Hsize) as (room' & user & H1 & H2 & _).
  exists room', user. split; [exact H1|exact H2].
Defined.

(** *** Rooms do not interfere *)

Lemma disconnect_loop_one sid entries rs :
  ∃ r0, ∀ r, r ≠ r0 →
    JSMap.get r (disconnect_loop sid entries rs).1 = JSMap.get r rs.
Proof.
  induction entries as [|[k room0] entries IH]; simpl; [by exists ""|].
  destruct (JSMap.get sid (users room0)); [|exact IH].
  exists k. intros r Hr. destruct (decide _); cbn [fst].
  - by apply get_delete_ne.
  - by apply get_set_ne.
Qed.

(** X17.  One event changes at most one room.  An event that names a room
    leaves every other room exactly as it was, whoever sent it; a
    [create_room] leaves every existing room as it was; a [disconnect]
    changes at most the one room its loop stops at. *)
Theorem event_touches_one_room (e : Event) (st st' : State)
  (out : list Emission) :
  step e st = Some (st', out) →
  ∃ r0,
    (∀ r, r ≠ r0 → JSMap.get r (rooms st') = JSMap.get r (rooms st)) ∧
    (∀ r, named_room e = Some r → r0 = r) ∧
    (∀ sid username draws now,
        e = CreateRoom sid username draws now →
        JSMap.get r0 (rooms st) = None).
Proof.
  intros Hstep.
  destruct (step_shape _ _ _ _ Hstep)
    as [(sid & -> & -> & _)|[(sid & -> & ->)|[->|(r0 & room' & Hrep & _ & Hn)]]].
  - exists "". split; [done|]. split; [discriminate|discriminate].
  - rewrite disconnect_result. cbn [fst rooms].
    destruct (disconnect_loop_one sid (rooms st) (rooms st)) as [r0 Hr0].
    exists r0. split; [done|]. split; [discriminate|discriminate].
  - destruct e; cbn [step sender] in Hstep;
      try (exists roomId; split; [done|]; split;
           [by intros r [= <-]|discriminate]).
    + exists "". split; [done|]. split; [discriminate|discriminate].
    + exfalso. destruct (decide _); [|discriminate].
      destruct (pick_room_id draws (rooms st)) as [roomId|] eqn:Hpick;
        [|unfold create_room in Hstep; by rewrite Hpick in Hstep].
      rewrite (create_room_picked _ _ _ _ _ _ Hpick) in Hstep.
      injection Hstep as Hst _. apply pick_room_id_fresh in Hpick.
      assert (Hnew : is_Some (JSMap.get roomId (rooms st))).
      { rewrite <- Hst at 1. cbn [rooms socket_join with_rooms].
        rewrite get_set_eq. eauto. }
      rewrite Hpick in Hnew. by destruct Hnew.
    + exists "". split; [done|]. split; [discriminate|discriminate].
  - destruct Hrep as (Hrooms & _). exists r0. split.
    + intros r Hr. rewrite Hrooms. by apply get_set_ne.
    + split; [intros r Hr; symmetry; by apply Hn|].
      intros sid username draws now ->. cbn [step sender] in Hstep.
      destruct (decide _); [|discriminate].
      destruct (pick_room_id draws (rooms st)) as [roomId|] eqn:Hpick;
        [|unfold create_room in Hstep; by rewrite Hpick in Hstep].
      rewrite (create_room_picked _ _ _ _ _ _ Hpick) in Hstep.
      injection Hstep as Hst _. apply pick_room_id_fresh in Hpick.
      destruct (decide (r0 = roomId)) as [->|Hne]; [done|].
      assert (Hat : JSMap.get roomId (rooms st') = JSMap.get roomId (rooms st)).
      { rewrite Hrooms. by apply get_set_ne. }
      rewrite <- Hst in Hat at 1. cbn [rooms socket_join with_rooms] in Hat.
      rewrite get_set_eq, Hpick in Hat. discriminate.
Qed.

Lemma event_touches_one_room_witness :
  let st := state_after two_rooms_each in
  step (CanvasUpdate "b" "ROOM01" [JStr "line"] 7%Q) st
  = Some (canvas_update "b" "ROOM01" [JStr "line"] 7%Q st) ∧
  JSMap.get "ROOM02" (rooms (canvas_update "b" "ROOM01" [JStr "line"] 7%Q st).1)
  = JSMap.get "ROOM02" (rooms st).
Proof.
  assert (H : step (CanvasUpdate "b" "ROOM01" [JStr "line"] 7%Q)
                (state_after two_rooms_each)
              = Some ((canvas_update "b" "ROOM01" [JStr "line"] 7%Q
                         (state_after two_rooms_each)).1,
                      (canvas_update "b" "ROOM01" [JStr "line"] 7%Q
                         (state_after two_rooms_each)).2))
    by (vm_compute; reflexivity).
  split; [vm_compute; reflexivity|].
  destruct (event_touches_one_room _ _ _ _ H) as (r0 & Hother & Hnamed & _).
  apply Hother. rewrite (Hnamed "ROOM01" eq_refl). discriminate.
Defined.

(** *** Who a message can reach *)

Lemma disconnect_loop_out sid entries rs m :
  m ∈ (disconnect_loop sid entries rs).2 → ∃ r msg, m = EmitTo r sid msg.
Proof.
  induction entries as [|[k room0] entries IH]; simpl.
  - intros H. by apply elem_of_nil in H.
  - destruct (JSMap.get sid (users room0)) as [user|]; [|exact IH].
    destruct (decide _); cbn [snd].
    + intros H. by apply elem_of_nil in H.
    + intros ->%list_elem_of_singleton. eauto.
Qed.

Lemma step_out e st st' out m :
  step e st = Some (st', out) → m ∈ out →
  (∃ msg, m = Emit (sender e) msg ∧ sender e ∈ dom (sockets st')) ∨
  (∃ r msg, m = EmitTo r (sender e) msg).
Proof.
  intros Hstep Hm.
  destruct e as [sid|sid username draws now|sid roomId username
                |sid roomId elements timestamp|sid roomId x y|sid roomId
                |sid roomId|sid roomId|sid]; cbn [step sender] in *.
  - destruct (decide _); [discriminate|]. injection Hstep as _ <-.
    by apply elem_of_nil in Hm.
  - destruct (decide _) as [Hopen|]; [|discriminate].
    destruct (pick_room_id draws (rooms st)) as [roomId|] eqn:Hpick;
      [|unfold create_room in Hstep; by rewrite Hpick in Hstep].
    rewrite (create_room_picked _ _ _ _ _ _ Hpick) in Hstep.
    injection Hstep as <- <-. apply list_elem_of_singleton in Hm as ->.
    left. eexists. split; [done|].
    cbn [sockets socket_join with_rooms]. by rewrite dom_alter_L.
  - destruct (decide _) as [Hopen|]; [|discriminate]. injection Hstep as Hstep.
    destruct (join_room_cases st sid roomId username)
      as [[reason Hrej]|(room & Hget & Hsize)].
    + rewrite Hrej in Hstep. injection Hstep as <- <-.
      apply list_elem_of_singleton in Hm as ->. left. eauto.
    + rewrite (join_room_accepted _ _ _ _ room) in Hstep by done.
      injection Hstep as <- <-.
      apply elem_of_cons in Hm as [->|Hm].
      * left. eexists. split; [done|].
        cbn [sockets socket_join with_rooms]. by rewrite dom_alter_L.
      * apply list_elem_of_singleton in Hm as ->. right. eauto.
  - destruct (decide _) as [Hopen|]; [|discriminate]. injection Hstep as Hstep.
    destruct (JSMap.get roomId (rooms st)) as [room|] eqn:Hget.
    + rewrite (canvas_update_found _ _ _ _ _ _ Hget) in Hstep.
      injection Hstep as _ <-. apply list_elem_of_singleton in Hm as ->.
      right. eauto.
    + rewrite canvas_update_missing in Hstep by done.
      injection Hstep as _ <-. by apply elem_of_nil in Hm.
  - destruct (decide _) as [Hopen|]; [|discriminate]. injection Hstep as Hstep.
    unfold cursor_move in Hstep.
    destruct (on_user_cases st sid roomId (with_cursor (Some (x, y)))
                (λ user, cursor_updated sid (cursor user) (color user)
                           (name user) (isDrawing user)))
      as [Hsame|(room & user & _ & _ & Hres)];
      rewrite ?Hsame, ?Hres in Hstep; injection Hstep as _ <-.
    + by apply elem_of_nil in Hm.
    + apply list_elem_of_singleton in Hm as ->. right. eauto.
  - destruct (decide _) as [Hopen|]; [|discriminate]. injection Hstep as Hstep.
    unfold drawing_start in Hstep.
    destruct (on_user_cases st sid roomId (with_isDrawing true)
                (λ user, user_drawing_start sid (color user) (name user)))
      as [Hsame|(room & user & _ & _ & Hres)];
      rewrite ?Hsame, ?Hres in Hstep; injection Hstep as _ <-.
    + by apply elem_of_nil in Hm.
    + apply list_elem_of_singleton in Hm as ->. right. eauto.
  - destruct (decide _) as [Hopen|]; [|discriminate]. injection Hstep as Hstep.
    unfold drawing_end in Hstep.
    destruct (on_user_cases st sid roomId (with_isDrawing false)
                (λ _, user_drawing_end sid))
      as [Hsame|(room & user & _ & _ & Hres)];
      rewrite ?Hsame, ?Hres in Hstep; injection Hstep as _ <-.
    + by apply elem_of_nil in Hm.
    + apply list_elem_of_singleton in Hm as ->. right. eauto.
  - destruct (decide _) as [Hopen|]; [|discriminate]. injection Hstep as Hstep.
    unfold request_sync in Hstep.
    destruct (JSMap.get roomId (rooms st)); injection Hstep as <- <-.
    + apply list_elem_of_singleton in Hm as ->. left. eauto.
    + by apply elem_of_nil in Hm.
  - destruct (decide _) as [Hopen|]; [|discriminate]. injection Hstep as Hstep.
    rewrite disconnect_result in Hstep. injection Hstep as _ <-.
    right. by eapply disconnect_loop_out.
Qed.

(** X18.  Whatever the event, each message it emits is delivered only to
    sockets that are open afterwards; a direct reply reaches the sender of
    the event and nobody else, and a broadcast never comes back to the
    sender. *)
Theorem messages_reach_open_sockets (e : Event) (st st' : State)
  (out : list Emission) (m : Emission) (s : string) :
  step e st = Some (st', out) →
  m ∈ out →
  s ∈ recipients st' m →
  s ∈ dom (sockets st') ∧
  match m with
  | Emit _ _ => s = sender e
  | EmitTo _ _ _ => s ≠ sender e
  end.
Proof.
  intros Hstep Hm Hs.
  destruct (step_out _ _ _ _ _ Hstep Hm)
    as [(msg & -> & Hopen)|(r & msg & ->)].
  - cbn [recipients] in Hs. apply elem_of_singleton in Hs as ->. done.
  - apply elem_of_recipients_EmitTo in Hs as (chans & Hchans & _ & Hne).
    split; [by eapply elem_of_dom_2|done].
Qed.

Lemma messages_reach_open_sockets_witness :
  let st := state_after alice_and_bob in
  step (DrawingStart "b" "ROOM01") st = Some (drawing_start "b" "ROOM01" st) ∧
  "a" ∈ dom (sockets (drawing_start "b" "ROOM01" st).1).
Proof.
  assert (H : step (DrawingStart "b" "ROOM01") (state_after alice_and_bob)
              = Some ((drawing_start "b" "ROOM01"
                         (state_after alice_and_bob)).1,
                      [EmitTo "ROOM01" "b"
                         (user_drawing_start "b" "#4ECDC4" "Bob")]))
    by (vm_compute; reflexivity).
  split; [vm_compute; reflexivity|].
  refine (proj1 (messages_reach_open_sockets _ _ _ _
                   (EmitTo "ROOM01" "b" (user_drawing_start "b" "#4ECDC4" "Bob"))
                   "a" H _ _)).
  - apply list_elem_of_here.
  - vm_compute. reflexivity.
Defined.

(** *** Channels and rooms agree *)

Lemma disconnect_loop_forward sid entries rs :
  (∀ k room0, (k, room0) ∈ entries → JSMap.get k rs = Some room0) →
  ∀ r room,
    JSMap.get r rs = Some room →
    JSMap.get r (disconnect_loop sid entries rs).1 = Some room ∨
    JSMap.get r (disconnect_loop sid entries rs).1
    = Some (with_users (JSMap.delete sid (users room)) room) ∨
    JSMap.size (JSMap.delete sid (users room)) = 0%nat.
Proof.
  induction entries as [|[k room0] entries IH]; intros Hentries r room Hget.
  - by left.
  - assert (Hk : JSMap.get k rs = Some room0)
      by (apply Hentries, list_elem_of_here).
    simpl. destruct (JSMap.get sid (users room0)) as [user|].
    + destruct (decide (k = r)) as [->|Hne].
      * rewrite Hget in Hk. injection Hk as <-.
        destruct (decide _) as [Hzero|Hsome]; cbn [fst].
        -- by do 2 right.
        -- right; left. apply get_set_eq.
      * left. destruct (decide _); cbn [fst].
        -- by rewrite get_delete_ne.
        -- by rewrite get_set_ne.
    + apply IH; [|done]. intros k' room1 Hin. apply Hentries.
      by apply list_elem_of_further.
Qed.

(** A socket that stays keeps every room it is in when another leaves. *)
Lemma disconnect_keeps_others sid st r s :
  invariant st → participant st r s → s ≠ sid →
  participant (disconnect sid st).1 r s.
Proof.
  intros Hinv (room & Hget & Hs) Hne. rewrite disconnect_result.
  unfold participant. cbn [fst rooms].
  assert (Hstays : is_Some (JSMap.get s (JSMap.delete sid (users room))))
    by (by rewrite get_delete_ne).
  destruct (disconnect_loop_forward sid (rooms st) (rooms st)
              (λ k v, NoDup_keys_get k v _ (inv_keys _ Hinv)) r room Hget)
    as [H|[H|Hzero]].
  - by exists room.
  - eexists. split; [exact H|]. done.
  - destruct Hstays as [u Hu]. apply size_pos_of_get in Hu. lia.
Qed.

Lemma step_channels e st st' out :
  invariant st → channels_are_rooms st →
  step e st = Some (st', out) → channels_are_rooms st'.
Proof.
  intros Hinv Hch Hstep s chans r Hlook Hr.
  destruct (step_shape _ _ _ _ Hstep)
    as [(sid & _ & -> & _)|[(sid & _ & ->)|[->|(r0 & room' & Hrep & _)]]].
  - cbn [sockets connection] in Hlook.
    apply lookup_insert_Some in Hlook as [[<- <-]|[_ Hlook]].
    + left. by apply elem_of_singleton in Hr.
    + destruct (Hch s chans r Hlook Hr) as [?|Hp]; [by left|by right].
  - rewrite disconnect_result in Hlook. cbn [fst sockets] in Hlook.
    apply lookup_delete_Some in Hlook as [Hne Hlook].
    destruct (Hch s chans r Hlook Hr) as [?|Hp]; [by left|right].
    by apply disconnect_keeps_others.
  - eauto.
  - destruct Hrep as (Hrooms & _ & Hsock & Hmono & _).
    assert (Hkeep : ∀ r1 s1, participant st r1 s1 → participant st' r1 s1).
    { intros r1 s1 Hp. apply (participant_set_room _ _ _ _ _ _ Hrooms).
      destruct (decide (r1 = r0)) as [->|Hne]; [left|right]; auto. }
    destruct Hsock as [Hsame|[Halter Hin]].
    + rewrite Hsame in Hlook.
      destruct (Hch s chans r Hlook Hr) as [?|Hp]; [by left|right; auto].
    + rewrite Halter in Hlook.
      destruct (decide (sender e = s)) as [Heq|Hne].
      * rewrite Heq, lookup_alter_eq in Hlook.
        destruct (sockets st !! s) as [chans0|] eqn:Hs0; [|discriminate].
        injection Hlook as <-.
        apply elem_of_union in Hr as [->%elem_of_singleton|Hr].
        -- right. apply (participant_set_room _ _ _ _ _ _ Hrooms).
           left. by rewrite <- Heq.
        -- destruct (Hch s chans0 r Hs0 Hr) as [?|Hp]; [by left|right; auto].
      * rewrite lookup_alter_ne in Hlook by done.
        destruct (Hch s chans r Hlook Hr) as [?|Hp]; [by left|right; auto].
Qed.

Lemma run_channels es st st' out :
  invariant st → channels_are_rooms st →
  run es st = Some (st', out) → channels_are_rooms st'.
Proof.
  revert st out. induction es as [|e es IH]; intros st out Hinv Hch; simpl.
  - by intros [= <- _].
  - destruct (step e st) as [[st1 out1]|] eqn:Hstep; [|discriminate].
    destruct (run es st1) as [[st2 out2]|] eqn:Hrun2; [|discriminate].
    intros [= <- _]. apply (IH st1 out2); [| |exact Hrun2].
    + by eapply step_invariant.
    + by eapply step_channels.
Qed.

(** X19.  In every reachable state a broadcast to a room's channel is
    delivered only to participants of that room (or to the socket whose own
    id is the channel's name, every socket being in the channel named after
    it): what is drawn in a room is not sent to connections outside it. *)
Theorem broadcasts_stay_in_room (st : State) (r sid s : string) (m : Msg) :
  reachable st →
  s ∈ recipients st (EmitTo r sid m) →
  participant st r s ∨ s = r.
Proof.
  intros (es & out & Hrun) Hs.
  assert (Hch : channels_are_rooms st).
  { apply (run_channels es init st out); [apply invariant_init| |exact Hrun].
    intros s0 chans r0 H. cbn in H. by rewrite lookup_empty in H. }
  apply elem_of_recipients_EmitTo in Hs as (chans & Hchans & Hr & _).
  destruct (Hch s chans r Hchans Hr) as [->|Hp]; [by right|by left].
Qed.

Lemma broadcasts_stay_in_room_witness :
  let st := state_after alice_and_bob in
  reachable st ∧
  "a" ∈ recipients st (EmitTo "ROOM01" "b" (user_drawing_end "b")) ∧
  (participant st "ROOM01" "a" ∨ "a" = "ROOM01").
Proof.
  assert (Hreach : reachable (state_after alice_and_bob)).
  { exists alice_and_bob. eexists. vm_compute. reflexivity. }
  assert (Hs : "a" ∈ recipients (state_after alice_and_bob)
                       (EmitTo "ROOM01" "b" (user_drawing_end "b")))
    by (vm_compute; reflexivity).
  split; [exact Hreach|]. split; [exact Hs|].
  exact (broadcasts_stay_in_room _ _ _ _ _ Hreach Hs).
Defined.

(** X21.  In every reachable state a broadcast to a room's channel reaches
    every participant of the room whose socket is open, the sender apart;
    so each [canvas_updated], [cursor_updated], drawing notice, [user_joined]
    and [user_left] gets to all the others in the room. *)
Theorem broadcasts_reach_participants (st : State) (r sid s : string)
  (m : Msg) :
  reachable st →
  participant st r s →
  s ∈ dom (sockets st) →
  s ≠ sid →
  s ∈ recipients st (EmitTo r sid m).
Proof.
  intros Hreach Hp [chans Hchans]%elem_of_dom Hne.
  apply elem_of_recipients_EmitTo. exists chans. split; [done|].
  split; [|done]. eapply inv_channel; [|exact Hp|exact Hchans].
  by apply reachable_invariant.
Qed.

Lemma broadcasts_reach_participants_witness :
  let st := state_after alice_and_bob in
  reachable st ∧
  participant st "ROOM01" "a" ∧
  "a" ∈ dom (sockets st) ∧
  "a" ∈ recipients st (EmitTo "ROOM01" "b" (user_drawing_end "b")).
Proof.
  assert (Hreach : reachable (state_after alice_and_bob)).
  { exists alice_and_bob. eexists. vm_compute. reflexivity. }
  assert (Hp : participant (state_after alice_and_bob) "ROOM01" "a").
  { exists (the_room "ROOM01" (state_after alice_and_bob)).
    split; [vm_compute; reflexivity|]. vm_compute. eauto. }
  assert (Hopen : "a" ∈ dom (sockets (state_after alice_and_bob)))
    by (vm_compute; reflexivity).
  split; [exact Hreach|]. split; [exact Hp|]. split; [exact Hopen|].
  refine (broadcasts_reach_participants _ _ "b" _ _ Hreach Hp Hopen _).
  discriminate.
Defined.

(** *** Leaving without having joined *)

Lemma disconnect_loop_absent sid entries rs :
  (∀ k room0, (k, room0) ∈ entries → JSMap.get sid (users room0) = None) →
  disconnect_loop sid entries rs = (rs, []).
Proof.
  induction entries as [|[k room0] entries IH]; intros Habsent; [done|].
  simpl. rewrite (Habsent k room0) by apply list_elem_of_here.
  apply IH. intros k' room1 Hin. eapply Habsent. by apply list_elem_of_further.
Qed.

(** X20.  When a socket that is in no room disconnects, no room changes and
    no message is sent; the socket is simply closed. *)
Theorem disconnect_outside_rooms (st : State) (sid : string) :
  reachable st →
  (∀ r, ¬ participant st r sid) →
  rooms (disconnect sid st).1 = rooms st ∧
  (disconnect sid st).2 = [] ∧
  sockets (disconnect sid st).1 !! sid = None ∧
  sid ∈ closed (disconnect sid st).1.
Proof.
  intros Hreach Hout. apply reachable_invariant in Hreach.
  rewrite disconnect_result. cbn [fst snd rooms sockets closed].
  rewrite disconnect_loop_absent.
  - split; [done|]. split; [done|]. split; [apply lookup_delete_eq|].
    apply elem_of_union_l. by apply elem_of_singleton.
  - intros k room0 Hin. apply eq_None_not_Some. intros Hs.
    apply (Hout k). exists room0. split; [|done].
    by apply NoDup_keys_get; [apply inv_keys|].
Qed.

Lemma disconnect_outside_rooms_witness :
  let st := state_after alice_and_outsider in
  reachable st ∧
  (∀ r, ¬ participant st r "c") ∧
  rooms (disconnect "c" st).1 = rooms st.
Proof.
  assert (Hreach : reachable (state_after alice_and_outsider)).
  { exists alice_and_outsider. eexists. vm_compute. reflexivity. }
  assert (Hout : ∀ r, ¬ participant (state_after alice_and_outsider) r "c").
  { assert (Hrooms : rooms (state_after alice_and_outsider)
                     = [("ROOM01",
                         the_room "ROOM01" (state_after alice_and_outsider))])
      by (vm_compute; reflexivity).
    intros r (room & Hget & Hs). rewrite Hrooms in Hget. simpl in Hget.
    destruct (decide (r = "ROOM01")); [|discriminate].
    injection Hget as <-. vm_compute in Hs. destruct Hs as [u Hu].
    discriminate. }
  split; [exact Hreach|]. split; [exact Hout|].
  exact (proj1 (disconnect_outside_rooms _ "c" Hreach Hout)).
Defined.

End RoomsMore.
